(** * rocks-strata OSS storage adapter: a shallow embedding and its properties

    The development follows [strata/ossstorage/storage.go].  The copy of the
    package that uses the other SDK differs only in the argument order of the
    constructor and in the name of the read call ([Head] instead of
    [GetResponse]); the control flow of every method is the same, so one
    embedding serves both.

    Go strings are byte sequences: a [string] here is a list of 8-bit
    characters, [len] is [String.length] and a slice expression [s[n:]]
    is [slice_from].  Go's [int] is modelled by [Z]; the only arithmetic the
    adapter performs on it is a subtraction that cannot overflow. *)

From Stdlib Require Import ZArith String Ascii List Lia.
From stdpp Require Import base option list gmap strings pretty.
From Equations Require Import Equations.

Local Open Scope Z_scope.

(** ** Go run-time values *)

(** The ways a method of the adapter can stop abnormally. *)
Inductive panic : Type :=
| SliceBoundsOutOfRange
| IndexOutOfRange
| NilDereference.

(** A computation either finishes with a value or panics. *)
Inductive result (A : Type) : Type :=
| Done (a : A)
| Panicked (p : panic).
Arguments Done {A} a.
Arguments Panicked {A} p.

(** An [error] value made outside the adapter (by the SDK, or by a reader).
    The adapter never looks inside one except through its [Error()] method;
    [err_detail] stands for whatever else the dynamic value carries. *)
Record GoError : Type := mkGoError {
  err_detail : Z;
  err_Error : string
}.

(** The errors a method of the adapter can return. *)
Inductive error : Type :=
| Foreign (e : GoError)                  (* an error passed on as it came *)
| ErrNotFound (path : string)            (* strata.ErrNotFound(path) *)
| errors_New (msg : string)              (* errors.New(msg) *)
| hex_InvalidByteError (c : ascii)       (* encoding/hex *)
| hex_ErrLength.

(** A Go pair [(T, error)] in which exactly one side is set. *)
Inductive ret (T : Type) : Type :=
| Val (v : T)
| Error (e : error).
Arguments Val {T} v.
Arguments Error {T} e.

(** ** Strings as Go sees them *)

(** [s] without its first [n] characters. *)
Fixpoint str_drop (n : nat) (s : string) : string :=
  match n, s with
  | O, _ => s
  | S _, EmptyString => EmptyString
  | S n', String _ t => str_drop n' t
  end.

(** [s[:n]] for [n] within [s]. *)
Fixpoint str_take (n : nat) (s : string) : string :=
  match n, s with
  | O, _ => ""
  | S _, EmptyString => ""
  | S n', String c t => String c (str_take n' t)
  end.

(** [s[n:]]: panics when [n] is beyond the end of [s]. *)
Definition slice_from (s : string) (n : nat) : result string :=
  if (n <=? String.length s)%nat then Done (str_drop n s)
  else Panicked SliceBoundsOutOfRange.

(** ** Library functions the adapter calls *)

Definition quote : string := String "034"%char "".

(** [strings.TrimPrefix]: [s] without the leading [p], or [s] itself. *)
Definition strings_TrimPrefix (s p : string) : string :=
  if String.prefix p s then str_drop (String.length p) s else s.

Definition strings_HasSuffix (s p : string) : bool :=
  (String.length p <=? String.length s)%nat
  && String.eqb (str_drop (String.length s - String.length p) s) p.

(** [strings.TrimSuffix]: [s] without the trailing [p], or [s] itself. *)
Definition strings_TrimSuffix (s p : string) : string :=
  if strings_HasSuffix s p
  then str_take (String.length s - String.length p) s else s.

(** The value of a hexadecimal digit, in either case. *)
Definition fromHexChar (c : ascii) : option N :=
  let n := N_of_ascii c in
  if ((48 <=? n) && (n <=? 57))%N then Some (n - 48)%N
  else if ((97 <=? n) && (n <=? 102))%N then Some (n - 97 + 10)%N
  else if ((65 <=? n) && (n <=? 70))%N then Some (n - 65 + 10)%N
  else None.

Definition hex_byte (a b : N) : Byte.byte :=
  byte_of_ascii (ascii_of_N (N.lor (N.shiftl a 4) b)).

(** [encoding/hex.DecodeString]: two digits per byte, the first offending
    character or the odd length reported as the error. *)
Fixpoint hex_DecodeString (s : string) : ret (list Byte.byte) :=
  match s with
  | EmptyString => Val []
  | String p EmptyString =>
      match fromHexChar p with
      | None => Error (hex_InvalidByteError p)
      | Some _ => Error hex_ErrLength
      end
  | String p (String q t) =>
      match fromHexChar p, fromHexChar q with
      | None, _ => Error (hex_InvalidByteError p)
      | Some _, None => Error (hex_InvalidByteError q)
      | Some a, Some b =>
          match hex_DecodeString t with
          | Val bs => Val (hex_byte a b :: bs)
          | Error e => Error e
          end
      end
  end.

(** An [io.Reader]: what its successive [Read] calls deliver until the end
    of the data or an error. *)
Inductive Reader : Type :=
| EOF
| Broken (e : GoError)
| Chunk (bs : list Byte.byte) (rest : Reader).

(** [ioutil.ReadAll]: the bytes read, and the error that stopped the
    reading if one did ([io.EOF] is not an error). *)
Fixpoint ioutil_ReadAll (r : Reader) : list Byte.byte * option GoError :=
  match r with
  | EOF => ([], None)
  | Broken e => ([], Some e)
  | Chunk bs rest =>
      let '(data, err) := ioutil_ReadAll rest in (bs ++ data, err)
  end.

(** Modelled from the spec: the declarations of [strata.ErrNotFound] (the
    constructor [ErrNotFound] of [error] above, a not-found error made from
    a path) and of [strata.NewChecksummingReader] are not among the sources.
    The envelope pairs the underlying byte source with the expected
    digest. *)
Record ChecksummingReader : Type := NewChecksummingReader {
  cr_reader : Reader;
  cr_checksum : list Byte.byte
}.

(** ** The adapter's record and PathCodec *)

Definition ACL : Type := string.

(** The SDK's access settings, with the texts that the driver's option
    description enumerates. *)
Definition Private : ACL := "private".
Definition PublicRead : ACL := "public-read".
Definition PublicReadWrite : ACL := "public-read-write".
Definition AuthenticatedRead : ACL := "authenticated-read".
Definition BucketOwnerRead : ACL := "bucket-owner-read".
Definition BucketOwnerFull : ACL := "bucket-owner-full-control".

Definition enumerated_acls : list ACL :=
  [Private; PublicRead; PublicReadWrite; AuthenticatedRead;
   BucketOwnerRead; BucketOwnerFull].

(** [OSSStorage]: the client and the bucket handle are both determined by
    the bucket's name; the record has no field for an access setting. *)
Record OSSStorage : Type := mkOSSStorage {
  bucket : string;
  region : string;
  prefix : string
}.

Definition addPrefix (s : OSSStorage) (path : string) : string :=
  prefix s +:+ "/" +:+ path.

Definition removePrefix (s : OSSStorage) (path : string) : result string :=
  slice_from path (String.length (prefix s) + 1).

(** ** The provider *)

Record oss_Key : Type := mkKey { Key : string }.

Record ListResp : Type := mkListResp {
  Contents : list oss_Key;
  IsTruncated : bool
}.

Record Response : Type := mkResponse {
  Header : gmap string (list string);
  Body : Reader
}.

(** The calls of the SDK's bucket handle, as transitions of the provider's
    state [W].  [List] answers with a page or an error; the read call can
    leave either of its two results unset. *)
Record Provider (W : Type) : Type := mkProvider {
  oss_List : string -> string -> string -> string -> Z -> W ->
             (ListResp + GoError) * W;
  oss_PutBucket : string -> ACL -> W -> option GoError * W;
  oss_GetResponse : string -> string -> W ->
                    (option Response * option GoError) * W;
  oss_Put : string -> string -> list Byte.byte -> string -> ACL -> W ->
            option GoError * W;
  oss_Del : string -> string -> W -> option GoError * W
}.
Arguments oss_List {W} _ _ _ _ _ _ _.
Arguments oss_PutBucket {W} _ _ _ _.
Arguments oss_GetResponse {W} _ _ _ _.
Arguments oss_Put {W} _ _ _ _ _ _ _.
Arguments oss_Del {W} _ _ _ _.

(** Every request the adapter sends, with the answer it got. *)
Inductive Event : Type :=
| EvList (bkt pfx delim mark : string) (max : Z) (r : ListResp + GoError)
| EvPutBucket (bkt : string) (perm : ACL) (r : option GoError)
| EvGetResponse (bkt path : string) (r : option Response * option GoError)
| EvPut (bkt path : string) (data : list Byte.byte) (contType : string)
        (perm : ACL) (r : option GoError)
| EvDel (bkt path : string) (r : option GoError).

Record State (W : Type) : Type := mkState {
  world : W;
  trace : list Event
}.
Arguments mkState {W} _ _.
Arguments world {W} _.
Arguments trace {W} _.

(** ** A state monad with panics *)

Definition M (W A : Type) : Type := State W -> result A * State W.

Definition mret {W A} (a : A) : M W A := fun st => (Done a, st).

Definition mpanic {W A} (p : panic) : M W A := fun st => (Panicked p, st).

Definition mbind {W A B} (m : M W A) (k : A -> M W B) : M W B :=
  fun st =>
    match m st with
    | (Done a, st') => k a st'
    | (Panicked p, st') => (Panicked p, st')
    end.

Definition lift {W A} (r : result A) : M W A := fun st => (r, st).

Notation "x <- m ;; k" := (mbind m (fun x => k))
  (at level 100, m at next level, right associativity).

(** Keeps the equation of a scrutinee for the branches of a match. *)
Definition inspect {A : Type} (a : A) : {x : A | a = x} := exist _ a eq_refl.

Definition emit {W} (w : W) (ev : Event) (st : State W) : State W :=
  mkState w (trace st ++ [ev]).

(** ** The adapter *)

Record loop_state : Type := mkLoop {
  maxSize : Z;
  marker : string;
  items : list string
}.

(** How an iteration of the listing loop ends: it goes round again, or the
    method returns ([break] is followed at once by [return items, nil]). *)
Inductive control : Type :=
| Next (ls : loop_state)
| Stop (r : ret (list string)).

Definition not_found_text : string := "The specified key does not exist.".

Section Adapter.
Context {W : Type} (b : Provider W).

Definition call_List (bkt pfx delim mark : string) (max : Z)
  : M W (ListResp + GoError) :=
  fun st =>
    let '(r, w) := oss_List b bkt pfx delim mark max (world st) in
    (Done r, emit w (EvList bkt pfx delim mark max r) st).

Definition call_PutBucket (bkt : string) (perm : ACL) : M W (option GoError) :=
  fun st =>
    let '(r, w) := oss_PutBucket b bkt perm (world st) in
    (Done r, emit w (EvPutBucket bkt perm r) st).

Definition call_GetResponse (bkt path : string)
  : M W (option Response * option GoError) :=
  fun st =>
    let '(r, w) := oss_GetResponse b bkt path (world st) in
    (Done r, emit w (EvGetResponse bkt path r) st).

Definition call_Put (bkt path : string) (data : list Byte.byte)
  (contType : string) (perm : ACL) : M W (option GoError) :=
  fun st =>
    let '(r, w) := oss_Put b bkt path data contType perm (world st) in
    (Done r, emit w (EvPut bkt path data contType perm r) st).

Definition call_Del (bkt path : string) : M W (option GoError) :=
  fun st =>
    let '(r, w) := oss_Del b bkt path (world st) in
    (Done r, emit w (EvDel bkt path r) st).

(** [NewOSSStorage]: the credentials and the two flags only configure the
    client, which the model is given as [b]. *)
Definition NewOSSStorage (bucketName prefix region : string) (internal : bool)
  (accessKeyID accessKeySecret : string) (secure : bool) (bucketACL : ACL)
  : M W (ret OSSStorage) :=
  probe <- call_List bucketName "" "/" "" 1 ;;
  match probe with
  | inr _ =>
      err <- call_PutBucket bucketName bucketACL ;;
      match err with
      | Some e => mret (Error (Foreign e))
      | None => mret (Val (mkOSSStorage bucketName region prefix))
      end
  | inl _ => mret (Val (mkOSSStorage bucketName region prefix))
  end.

(** The part of [Get] after a successful read: the digest header. *)
Definition Get_checksum (resp : Response) : ret ChecksummingReader :=
  match Header resp !! "Etag" with
  | None => Error (errors_New "No Etag header")
  | Some [] => Error (errors_New "Etag header is empty")
  | Some (etag0 :: _) =>
      match hex_DecodeString
              (strings_TrimSuffix (strings_TrimPrefix etag0 quote) quote) with
      | Error err => Error err
      | Val checksum => Val (NewChecksummingReader (Body resp) checksum)
      end
  end.

Definition Get (s : OSSStorage) (path : string) : M W (ret ChecksummingReader) :=
  let path := addPrefix s path in
  r <- call_GetResponse (bucket s) path ;;
  match r with
  | (Some resp, None) => mret (Get_checksum resp)
  | (_, Some err) =>
      if String.eqb (err_Error err) not_found_text
      then mret (Error (ErrNotFound path))
      else mret (Error (Foreign err))
  | (None, None) => mpanic NilDereference
  end.

Definition Put (s : OSSStorage) (path : string) (data : list Byte.byte)
  : M W (option error) :=
  let path := addPrefix s path in
  err <- call_Put (bucket s) path data "application/octet-stream" Private ;;
  mret (Foreign <$> err).

Definition PutReader (s : OSSStorage) (path : string) (reader : Reader)
  : M W (option error) :=
  let '(data, err) := ioutil_ReadAll reader in
  match err with
  | Some e => mret (Some (Foreign e))
  | None => Put s path data
  end.

Definition Delete (s : OSSStorage) (path : string) : M W (option error) :=
  let path := addPrefix s path in
  err <- call_Del (bucket s) path ;;
  mret (Foreign <$> err).

(** The [range] loop of [List]: each key loses its prefix and is appended. *)
Fixpoint append_keys (s : OSSStorage) (keys : list oss_Key)
  (acc : list string) : result (list string) :=
  match keys with
  | [] => Done acc
  | key :: rest =>
      match removePrefix s (Key key) with
      | Done p => append_keys s rest (acc ++ [p])
      | Panicked e => Panicked e
      end
  end.

Definition maxReqSize_of (maxSize : Z) : Z :=
  if maxSize <? 1000 then maxSize else 1000.

(** One iteration of the loop of [List], entered with [maxSize ls > 0];
    [pfx] is the prefix after [addPrefix]. *)
Definition List_body (s : OSSStorage) (pfx : string) (ls : loop_state)
  : M W control :=
  let maxReqSize := maxReqSize_of (maxSize ls) in
  r <- call_List (bucket s) pfx "" (marker ls) maxReqSize ;;
  match r with
  | inr err => mret (Stop (Error (Foreign err)))
  | inl contents =>
      let maxSize' := maxSize ls - maxReqSize in
      items' <- lift (append_keys s (Contents contents) (items ls)) ;;
      if IsTruncated contents then
        match last items' with
        | Some it => mret (Next (mkLoop maxSize' (addPrefix s it) items'))
        | None => mpanic IndexOutOfRange
        end
      else mret (Stop (Val items'))
  end.

Lemma List_body_decreases s pfx ls st ls' st' :
  0 < maxSize ls ->
  List_body s pfx ls st = (Done (Next ls'), st') ->
  (Z.to_nat (maxSize ls') < Z.to_nat (maxSize ls))%nat.
Proof.
  intros Hpos. unfold List_body, mbind, call_List, lift, mret, mpanic.
  destruct (oss_List b _ _ _ _ _ _) as [[contents|err] w]; [|discriminate].
  destruct (append_keys s _ _) as [its|p]; [|discriminate].
  destruct (IsTruncated contents); [|discriminate].
  destruct (last its); [|discriminate].
  intros [= <- _]. simpl. unfold maxReqSize_of.
  destruct (Z.ltb_spec (maxSize ls) 1000); lia.
Qed.

(** The loop of [List], from any loop state: it ends because every further
    round lowers the remaining budget. *)
Equations? List_loop (s : OSSStorage) (pfx : string) (ls : loop_state)
  (st : State W) : result (ret (list string)) * State W
  by wf (Z.to_nat (maxSize ls)) lt :=
List_loop s pfx ls st with Z_lt_dec 0 (maxSize ls) => {
  | right _ => (Done (Val (items ls)), st)
  | left Hpos with inspect (List_body s pfx ls st) => {
    | exist _ (Done (Next ls'), st') Hbody => List_loop s pfx ls' st'
    | exist _ (Done (Stop r), st') _ => (Done r, st')
    | exist _ (Panicked p, st') _ => (Panicked p, st') } }.
Proof. exact (List_body_decreases _ _ _ _ _ _ Hpos Hbody). Qed.

Definition List (s : OSSStorage) (prefix : string) (maxSize : Z)
  : M W (ret (list string)) :=
  let prefix := addPrefix s prefix in
  List_loop s prefix (mkLoop maxSize "" []).

Definition Lock (s : OSSStorage) (path : string) : M W (option error) :=
  mret None.

Definition Unlock (s : OSSStorage) (path : string) : M W (option error) :=
  mret None.

End Adapter.

(** ** The copy of the package for the other SDK

    The second copy of package [ossstorage] differs from the first in the
    constructor's arguments, in the [auth] field of the record, and in the
    read call of [Get] ([Head]).  Everything but [Get] is embedded here. *)

Record Auth : Type := mkAuth {
  AccessKey : string;
  SecretKey : string
}.

Module OtherSDK.

Record OSSStorage : Type := mk {
  bucket : string;
  region : string;
  auth : Auth;
  prefix : string
}.

Definition addPrefix (s : OSSStorage) (path : string) : string :=
  prefix s +:+ "/" +:+ path.

Definition removePrefix (s : OSSStorage) (path : string) : result string :=
  slice_from path (String.length (prefix s) + 1).

Section Methods.
Context {W : Type} (b : Provider W).

Definition NewOSSStorage (region : string) (auth : Auth)
  (bucketName prefix : string) (bucketACL : ACL) : M W (ret OSSStorage) :=
  probe <- call_List b bucketName "" "/" "" 1 ;;
  match probe with
  | inr _ =>
      err <- call_PutBucket b bucketName bucketACL ;;
      match err with
      | Some e => mret (Error (Foreign e))
      | None => mret (Val (mk bucketName region auth prefix))
      end
  | inl _ => mret (Val (mk bucketName region auth prefix))
  end.

Definition Put (s : OSSStorage) (path : string) (data : list Byte.byte)
  : M W (option error) :=
  let path := addPrefix s path in
  err <- call_Put b (bucket s) path data "application/octet-stream" Private ;;
  mret (Foreign <$> err).

Definition PutReader (s : OSSStorage) (path : string) (reader : Reader)
  : M W (option error) :=
  let '(data, err) := ioutil_ReadAll reader in
  match err with
  | Some e => mret (Some (Foreign e))
  | None => Put s path data
  end.

Definition Delete (s : OSSStorage) (path : string) : M W (option error) :=
  let path := addPrefix s path in
  err <- call_Del b (bucket s) path ;;
  mret (Foreign <$> err).

Fixpoint append_keys (s : OSSStorage) (keys : list oss_Key)
  (acc : list string) : result (list string) :=
  match keys with
  | [] => Done acc
  | key :: rest =>
      match removePrefix s (Key key) with
      | Done p => append_keys s rest (acc ++ [p])
      | Panicked e => Panicked e
      end
  end.

Definition List_body (s : OSSStorage) (pfx : string) (ls : loop_state)
  : M W control :=
  let maxReqSize := maxReqSize_of (maxSize ls) in
  r <- call_List b (bucket s) pfx "" (marker ls) maxReqSize ;;
  match r with
  | inr err => mret (Stop (Error (Foreign err)))
  | inl contents =>
      let maxSize' := maxSize ls - maxReqSize in
      items' <- lift (append_keys s (Contents contents) (items ls)) ;;
      if IsTruncated contents then
        match last items' with
        | Some it => mret (Next (mkLoop maxSize' (addPrefix s it) items'))
        | None => mpanic IndexOutOfRange
        end
      else mret (Stop (Val items'))
  end.

Lemma body_decreases s pfx ls st ls' st' :
  0 < maxSize ls ->
  List_body s pfx ls st = (Done (Next ls'), st') ->
  (Z.to_nat (maxSize ls') < Z.to_nat (maxSize ls))%nat.
Proof.
  intros Hpos. unfold List_body, mbind, call_List, lift, mret, mpanic.
  destruct (oss_List b _ _ _ _ _ _) as [[contents|err] w]; [|discriminate].
  destruct (append_keys s _ _) as [its|p]; [|discriminate].
  destruct (IsTruncated contents); [|discriminate].
  destruct (last its); [|discriminate].
  intros [= <- _]. simpl. unfold maxReqSize_of.
  destruct (Z.ltb_spec (maxSize ls) 1000); lia.
Qed.

Equations? List_loop (s : OSSStorage) (pfx : string) (ls : loop_state)
  (st : State W) : result (ret (list string)) * State W
  by wf (Z.to_nat (maxSize ls)) lt :=
List_loop s pfx ls st with Z_lt_dec 0 (maxSize ls) => {
  | right _ => (Done (Val (items ls)), st)
  | left Hpos with inspect (List_body s pfx ls st) => {
    | exist _ (Done (Next ls'), st') Hbody => List_loop s pfx ls' st'
    | exist _ (Done (Stop r), st') _ => (Done r, st')
    | exist _ (Panicked p, st') _ => (Panicked p, st') } }.
Proof. exact (body_decreases _ _ _ _ _ _ Hpos Hbody). Qed.

Definition List (s : OSSStorage) (prefix : string) (maxSize : Z)
  : M W (ret (list string)) :=
  let prefix := addPrefix s prefix in
  List_loop s prefix (mkLoop maxSize "" []).

Definition Lock (s : OSSStorage) (path : string) : M W (option error) :=
  mret None.

Definition Unlock (s : OSSStorage) (path : string) : M W (option error) :=
  mret None.

End Methods.

End OtherSDK.

(** ** The driver factory of the OSS backend *)

(** [os.Getenv]: the value of a variable, empty when it is not set. *)
Definition os_Getenv (env : gmap string string) (key : string) : string :=
  default "" (env !! key).

(** [strconv.Itoa]: the decimal text of an integer. *)
Definition strconv_Itoa (i : Z) : string := pretty i.

Record OSSOptions : Type := mkOSSOptions {
  Region : string;
  BucketName : string;
  BucketPrefix : string;
  BucketACL : string
}.

Record ReplicaOptions : Type := mkReplicaOptions {
  MaxBackgroundCopies : Z;
  Port : Z;
  Username : string;
  Password : string
}.

Record Options : Type := mkOptions {
  OSS : OSSOptions;
  Replica : ReplicaOptions
}.

(** [Ops] is a pointer, which may be nil. *)
Record DriverFactory : Type := mkDriverFactory {
  Ops : option Options
}.

Definition GetOptions (factory : DriverFactory) : option Options :=
  Ops factory.

Record strata_Driver (SnapshotManager : Type) : Type := mkDriver {
  Manager : SnapshotManager
}.
Arguments mkDriver {SnapshotManager} _.
Arguments Manager {SnapshotManager} _.

Definition credentials_text : string :=
  "Environment variables OSS_ACCESS_KEY_ID and OSS_SECRET_ACCESS_KEY must be set".

Section Driver.
Context {W : Type} (b : Provider W).
(** The replica and the snapshot manager are made by packages that are not
    among the sources: their constructors are parameters, free to use the
    provider and to fail. *)
Context {LocalReplica SnapshotManager : Type}.
Context (NewLocalReplica :
           Z -> string -> string -> string -> M W (ret LocalReplica)).
Context (NewSnapshotManager :
           LocalReplica -> OtherSDK.OSSStorage -> M W (ret SnapshotManager)).
Context (env : gmap string string).

Definition Driver (factory : DriverFactory)
  : M W (ret (strata_Driver SnapshotManager)) :=
  let options := GetOptions factory in
  let accessKey := os_Getenv env "OSS_ACCESS_KEY_ID" in
  let secretKey := os_Getenv env "OSS_SECRET_ACCESS_KEY" in
  if String.eqb accessKey "" || String.eqb secretKey "" then
    mret (Error (errors_New credentials_text))
  else
    match options with
    | None => mpanic NilDereference
    | Some options =>
        r <- OtherSDK.NewOSSStorage b
               (Region (OSS options))
               (mkAuth accessKey secretKey)
               (BucketName (OSS options))
               (BucketPrefix (OSS options))
               (BucketACL (OSS options)) ;;
        match r with
        | Error err => mret (Error err)
        | Val ossstorage =>
            r <- NewLocalReplica
                   (MaxBackgroundCopies (Replica options))
                   (strconv_Itoa (Port (Replica options)))
                   (Username (Replica options))
                   (Password (Replica options)) ;;
            match r with
            | Error err => mret (Error err)
            | Val replica =>
                r <- NewSnapshotManager replica ossstorage ;;
                match r with
                | Error err => mret (Error err)
                | Val manager => mret (Val (mkDriver manager))
                end
            end
        end
    end.

End Driver.

(** ** The command's entry point *)

Definition is_ascii_byte (c : ascii) : bool := (N_of_ascii c <? 128)%N.

Fixpoint is_ascii (s : string) : bool :=
  match s with
  | EmptyString => true
  | String c t => is_ascii_byte c && is_ascii t
  end.

Definition lower_byte (c : ascii) : ascii :=
  let n := N_of_ascii c in
  if ((65 <=? n) && (n <=? 90))%N then ascii_of_N (n + 32) else c.

Fixpoint lower_bytes (s : string) : string :=
  match s with
  | EmptyString => EmptyString
  | String c t => String (lower_byte c) (lower_bytes t)
  end.

(** [strings.ToLower]: byte by byte on a text that is all ASCII; otherwise
    the mapping of the runes, which is the parameter [lower_runes]. *)
Definition strings_ToLower (lower_runes : string -> string) (s : string)
  : string :=
  if is_ascii s then lower_bytes s else lower_runes s.

(** The factory that [main] hands to [RunCLI]. *)
Inductive backend : Type :=
| OSSBackend (factory : DriverFactory)
| S3Backend.

Definition zero_Options : Options :=
  mkOptions (mkOSSOptions "" "" "" "") (mkReplicaOptions 0 0 "" "").

Definition main (lower_runes : string -> string) (env : gmap string string)
  : backend :=
  if String.eqb (strings_ToLower lower_runes (os_Getenv env "REMOTE_STORAGE"))
       "oss"
  then OSSBackend (mkDriverFactory (Some zero_Options))
  else S3Backend.

(** ** The vocabulary of the properties *)

Definition is_hex_digit (c : ascii) : bool :=
  match fromHexChar c with Some _ => true | None => false end.

Fixpoint all_hex (s : string) : bool :=
  match s with
  | EmptyString => true
  | String c t => is_hex_digit c && all_hex t
  end.

(** A string is valid hexadecimal when it is an even number of digits. *)
Definition valid_hex (s : string) : bool :=
  Nat.even (String.length s) && all_hex s.

(** The bytes a reader delivers before it ends or fails. *)
Fixpoint reader_bytes (r : Reader) : list Byte.byte :=
  match r with
  | Chunk bs rest => bs ++ reader_bytes rest
  | _ => []
  end.

(** The error a reader fails with, if it does. *)
Fixpoint reader_failure (r : Reader) : option GoError :=
  match r with
  | EOF => None
  | Broken e => Some e
  | Chunk _ rest => reader_failure rest
  end.

(** [putFromStream] in the words of the specification: materialize the
    reader, then delegate to [put]; a failed read is returned as it is. *)
Definition putFromStream_spec {W : Type} (b : Provider W) (s : OSSStorage)
  (path : string) (reader : Reader) : M W (option error) :=
  match reader_failure reader with
  | Some e => mret (Some (Foreign e))
  | None => Put b s path (reader_bytes reader)
  end.

Definition is_PutBucket (ev : Event) : bool :=
  match ev with EvPutBucket _ _ _ => true | _ => false end.

Definition is_write (ev : Event) : bool :=
  match ev with EvPut _ _ _ _ _ _ => true | _ => false end.

(** The page size a listing request asked for stays within [bound]. *)
Definition page_within (bound : Z) (ev : Event) : bool :=
  match ev with
  | EvList _ _ _ _ max _ => max <=? bound
  | _ => true
  end.

(** The provider keys the listing requests of a trace were answered with. *)
Fixpoint listed_keys (evs : list Event) : list string :=
  match evs with
  | [] => []
  | EvList _ _ _ _ _ (inl page) :: rest =>
      (Key <$> Contents page) ++ listed_keys rest
  | _ :: rest => listed_keys rest
  end.

(** What [removePrefix] leaves of a key it accepts. *)
Definition strip (s : OSSStorage) (key : string) : string :=
  str_drop (String.length (prefix s) + 1) key.

(** The marker that follows the first [n] keys of [ks]: none at the start,
    the last key served otherwise. *)
Definition marker_at (ks : list string) (n : nat) : string :=
  match n with
  | O => ""
  | S i => default "" (ks !! i)
  end.

(** The page of at most [max] keys that follows the first [n] keys of [ks];
    it is marked as truncated when keys remain after it. *)
Definition page_at (ks : list string) (n : nat) (max : Z) : ListResp :=
  mkListResp (mkKey <$> take (Z.to_nat max) (drop n ks))
             (bool_decide (Z.to_nat max < length (drop n ks))%nat).

(** The provider holds exactly the keys [ks] under [pfx], and answers a
    listing request for up to 1000 of them with the page that follows the
    marker, in every state that satisfies [Inv]. *)
Definition serves_pages {W : Type} (b : Provider W) (Inv : W -> Prop)
  (bkt pfx : string) (ks : list string) : Prop :=
  forall (n : nat) (max : Z) (w : W),
    (n <= length ks)%nat -> 0 < max <= 1000 -> Inv w ->
    exists w',
      oss_List b bkt pfx "" (marker_at ks n) max w
      = (inl (page_at ks n max), w') /\ Inv w'.

Definition all_under (pfx : string) (ks : list string) : bool :=
  forallb (String.prefix pfx) ks.

(** A listing request for the bucket [bkt] and the prefix [pfx], without a
    delimiter, for between 1 and 1000 keys. *)
Definition is_listing_of (bkt pfx : string) (ev : Event) : bool :=
  match ev with
  | EvList bkt' pfx' delim _ max _ =>
      String.eqb bkt' bkt && String.eqb pfx' pfx && String.eqb delim ""
      && (0 <? max) && (max <=? 1000)
  | _ => false
  end.

(** The answer recorded with a listing request is one the provider gives to
    that request. *)
Definition answered {W : Type} (b : Provider W) (ev : Event) : Prop :=
  match ev with
  | EvList bkt pfx delim mark max r =>
      exists w, (oss_List b bkt pfx delim mark max w).1 = r
  | _ => True
  end.

(** The provider never puts more keys in a page than the request asked
    for. *)
Definition honours_max {W : Type} (b : Provider W) : Prop :=
  forall bkt pfx delim mark max w,
    0 < max ->
    match (oss_List b bkt pfx delim mark max w).1 with
    | inl page => Z.of_nat (length (Contents page)) <= max
    | inr _ => True
    end.

Definition sum_Z (l : list Z) : Z := foldr Z.add 0 l.

(** A key too short for [removePrefix]. *)
Definition short_key (s : OSSStorage) (key : oss_Key) : bool :=
  (String.length (Key key) <? String.length (prefix s) + 1)%nat.

(** An adapter of the second copy seen as one of the first. *)
Definition forget (s : OtherSDK.OSSStorage) : OSSStorage :=
  mkOSSStorage (OtherSDK.bucket s) (OtherSDK.region s) (OtherSDK.prefix s).

Definition forget_ret (r : ret OtherSDK.OSSStorage) : ret OSSStorage :=
  match r with
  | Val s => Val (forget s)
  | Error e => Error e
  end.

(** The spellings of ["oss"] in upper and lower case. *)
Definition oss_spellings : list string :=
  ["oss"; "osS"; "oSs"; "oSS"; "Oss"; "OsS"; "OSs"; "OSS"].

(** ** Test doubles for the provider *)

(** Answers that do not depend on the request. *)
Record Script : Type := mkScript {
  on_List : ListResp + GoError;
  on_PutBucket : option GoError;
  on_GetResponse : option Response * option GoError;
  on_Put : option GoError;
  on_Del : option GoError
}.

Definition scripted (sc : Script) : Provider unit :=
  mkProvider unit
    (fun _ _ _ _ _ w => (on_List sc, w))
    (fun _ _ w => (on_PutBucket sc, w))
    (fun _ _ w => (on_GetResponse sc, w))
    (fun _ _ _ _ _ w => (on_Put sc, w))
    (fun _ _ w => (on_Del sc, w)).

Definition all_fine : Script :=
  mkScript (inl (mkListResp [] false)) None (None, None) None None.

(** The keys of [ks] that come after [mark], in the order of [ks]. *)
Fixpoint keys_after (mark : string) (ks : list string) : list string :=
  match ks with
  | [] => []
  | k :: rest => if String.eqb k mark then rest else keys_after mark rest
  end.

(** A bucket that holds the keys [ks] and serves them in pages. *)
Definition paged (ks : list string) : Provider unit :=
  mkProvider unit
    (fun _ pfx _ mark max w =>
       let under := filter (fun k => String.prefix pfx k = true) ks in
       let rest := if String.eqb mark "" then under else keys_after mark under in
       (inl (mkListResp (mkKey <$> take (Z.to_nat max) rest)
                        (bool_decide (Z.to_nat max < length rest)%nat)), w))
    (fun _ _ w => (None, w))
    (fun _ _ w => ((None, None), w))
    (fun _ _ _ _ _ w => (None, w))
    (fun _ _ w => (None, w)).

Definition start : State unit := mkState tt [].

Definition boom : GoError := mkGoError 503 "connection reset".
Definition denied : GoError := mkGoError 403 "Access Denied".

Definition no_such_key : GoError := mkGoError 404 not_found_text.

Definition md5_of_nothing : string := "d41d8cd98f00b204e9800998ecf8427e".

Definition etag_response (values : list string) : Response :=
  mkResponse {["Etag" := values]} EOF.

Definition db_keys : list string :=
  ["backups/db/a"; "backups/db/b"; "backups/db/c"].

(** [n] distinct keys under the prefix ["backups"]. *)
Definition many_keys (n : nat) : list string :=
  (fun i => "backups/k" +:+ pretty i) <$> seq 0 n.

(** The page sizes the listing requests of a trace asked for. *)
Definition requested (evs : list Event) : list Z :=
  omap (fun ev => match ev with
                  | EvList _ _ _ _ max _ => Some max
                  | _ => None
                  end) evs.

(** Stand-ins for the two constructors that are not among the sources: the
    replica is its port text, the manager the pair of its arguments. *)
Definition port_replica (maxCopies : Z) (port username password : string)
  : M unit (ret string) :=
  mret (Val port).

Definition pair_manager (replica : string) (storage : OtherSDK.OSSStorage)
  : M unit (ret (string * OtherSDK.OSSStorage)) :=
  mret (Val (replica, storage)).

Definition with_credentials : gmap string string :=
  {["OSS_ACCESS_KEY_ID" := "id"; "OSS_SECRET_ACCESS_KEY" := "key"]}.

Definition sample_options : Options :=
  mkOptions (mkOSSOptions "oss-cn-hangzhou" "bkt" "backups" "no-such-acl")
            (mkReplicaOptions 16 27017 "" "").

(** ** String facts *)

Lemma str_app_cons (c : ascii) (a b : string) :
  String c a +:+ b = String c (a +:+ b).
Proof. reflexivity. Qed.

Lemma str_drop_app (a b : string) : str_drop (String.length a) (a +:+ b) = b.
Proof.
  induction a as [|c a IH]; [reflexivity|].
  rewrite str_app_cons. simpl. exact IH.
Qed.

Lemma str_length_app (a b : string) :
  String.length (a +:+ b) = (String.length a + String.length b)%nat.
Proof.
  induction a as [|c a IH]; [reflexivity|].
  rewrite str_app_cons. simpl. now rewrite IH.
Qed.

Lemma str_app_assoc (a b c : string) : (a +:+ b) +:+ c = a +:+ (b +:+ c).
Proof.
  induction a as [|x a IH]; [reflexivity|].
  rewrite !str_app_cons. now rewrite IH.
Qed.

Lemma addPrefix_length (s : OSSStorage) (K : string) :
  String.length (addPrefix s K)
  = (String.length (prefix s) + 1 + String.length K)%nat.
Proof.
  unfold addPrefix. rewrite !str_length_app. simpl. lia.
Qed.

Lemma removePrefix_addPrefix (s : OSSStorage) (K : string) :
  removePrefix s (addPrefix s K) = Done K.
Proof.
  unfold removePrefix, slice_from.
  rewrite addPrefix_length.
  destruct (Nat.leb_spec (String.length (prefix s) + 1)
              (String.length (prefix s) + 1 + String.length K)) as [_|H];
    [|lia].
  unfold addPrefix. rewrite <- str_app_assoc.
  replace (String.length (prefix s) + 1)%nat
    with (String.length (prefix s +:+ "/"))
    by (rewrite str_length_app; reflexivity).
  now rewrite str_drop_app.
Qed.

Lemma strip_addPrefix (s : OSSStorage) (K : string) :
  strip s (addPrefix s K) = K.
Proof.
  pose proof (removePrefix_addPrefix s K) as H.
  unfold removePrefix, slice_from in H.
  destruct (_ <=? _)%nat; [|discriminate]. now injection H.
Qed.

Lemma str_drop_snoc (h q : string) :
  str_drop (String.length (h +:+ q) - String.length q) (h +:+ q) = q.
Proof.
  rewrite str_length_app.
  replace (String.length h + String.length q - String.length q)%nat
    with (String.length h) by lia.
  apply str_drop_app.
Qed.

Lemma str_take_app (h q : string) : str_take (String.length h) (h +:+ q) = h.
Proof.
  induction h as [|c h IH]; [destruct q; reflexivity|].
  rewrite str_app_cons. simpl. now rewrite IH.
Qed.

Lemma TrimSuffix_app (h q : string) : strings_TrimSuffix (h +:+ q) q = h.
Proof.
  unfold strings_TrimSuffix, strings_HasSuffix.
  rewrite str_drop_snoc, String.eqb_refl, andb_true_r.
  destruct (Nat.leb_spec (String.length q) (String.length (h +:+ q)))
    as [_|H]; [|rewrite str_length_app in H; lia].
  rewrite str_length_app.
  replace (String.length h + String.length q - String.length q)%nat
    with (String.length h) by lia.
  apply str_take_app.
Qed.

Lemma unquote_quoted (h : string) :
  strings_TrimSuffix (strings_TrimPrefix (quote +:+ h +:+ quote) quote) quote
  = h.
Proof.
  assert (strings_TrimPrefix (quote +:+ h +:+ quote) quote = h +:+ quote)
    as ->; [|apply TrimSuffix_app].
  unfold strings_TrimPrefix, quote. rewrite str_app_cons. simpl.
  destruct (ascii_dec "034" "034") as [_|Hne]; [|contradiction].
  destruct (h +:+ String "034" ""); reflexivity.
Qed.

Lemma prefix_split (p k : string) :
  String.prefix p k = true -> k = p +:+ str_drop (String.length p) k.
Proof.
  revert k. induction p as [|c p IH]; intros k; [reflexivity|].
  destruct k as [|d k]; simpl; [discriminate|].
  destruct (ascii_dec c d) as [->|]; [|discriminate].
  intros H. rewrite str_app_cons. f_equal. now apply IH.
Qed.

Lemma under_prefix_key (s : OSSStorage) (dir k : string) :
  String.prefix (addPrefix s dir) k = true ->
  (String.length (prefix s) + 1 <= String.length k)%nat /\
  addPrefix s (strip s k) = k.
Proof.
  intros H.
  assert (exists rest, k = addPrefix s dir +:+ rest) as [rest ->]
    by (eexists; now apply prefix_split).
  replace (addPrefix s dir +:+ rest) with (addPrefix s (dir +:+ rest))
    by (unfold addPrefix; now rewrite !str_app_assoc).
  split; [rewrite addPrefix_length; lia|].
  now rewrite strip_addPrefix.
Qed.

(** ** Facts about the library functions *)

Lemma hex_DecodeString_pair (c a : ascii) (t : string) :
  hex_DecodeString (String c (String a t)) =
  match fromHexChar c, fromHexChar a with
  | None, _ => Error (hex_InvalidByteError c)
  | Some _, None => Error (hex_InvalidByteError a)
  | Some x, Some y =>
      match hex_DecodeString t with
      | Val bs => Val (hex_byte x y :: bs)
      | Error e => Error e
      end
  end.
Proof. reflexivity. Qed.

Lemma valid_hex_pair (c a : ascii) (t : string) :
  valid_hex (String c (String a t))
  = is_hex_digit c && (is_hex_digit a && valid_hex t).
Proof.
  unfold valid_hex.
  change (String.length (String c (String a t)))
    with (S (S (String.length t))).
  change (all_hex (String c (String a t)))
    with (is_hex_digit c && (is_hex_digit a && all_hex t)).
  change (Nat.even (S (S (String.length t))))
    with (Nat.even (String.length t)).
  destruct (Nat.even (String.length t)), (is_hex_digit c), (is_hex_digit a);
    reflexivity.
Qed.

Lemma hex_DecodeString_valid_aux (s : string) :
  (match hex_DecodeString s with
   | Val _ => valid_hex s = true
   | Error _ => valid_hex s = false
   end) /\
  (forall c,
      match hex_DecodeString (String c s) with
      | Val _ => valid_hex (String c s) = true
      | Error _ => valid_hex (String c s) = false
      end).
Proof.
  induction s as [|a t [IH1 IH2]].
  - split; [reflexivity|].
    intros c. unfold valid_hex. simpl.
    destruct (fromHexChar c); reflexivity.
  - split; [apply IH2|].
    intros c. rewrite hex_DecodeString_pair, valid_hex_pair.
    unfold is_hex_digit.
    destruct (fromHexChar c) as [x|]; [|reflexivity].
    destruct (fromHexChar a) as [y|]; [|reflexivity].
    destruct (hex_DecodeString t); exact IH1.
Qed.

Lemma hex_DecodeString_valid (s : string) :
  match hex_DecodeString s with
  | Val _ => valid_hex s = true
  | Error _ => valid_hex s = false
  end.
Proof. apply hex_DecodeString_valid_aux. Qed.

Lemma hex_DecodeString_error_aux (s : string) (e : error) :
  (hex_DecodeString s = Error e ->
   e = hex_ErrLength \/ exists c, e = hex_InvalidByteError c) /\
  (forall a, hex_DecodeString (String a s) = Error e ->
   e = hex_ErrLength \/ exists c, e = hex_InvalidByteError c).
Proof.
  induction s as [|q t [IH1 IH2]].
  - split; [discriminate|]. intros a. simpl.
    destruct (fromHexChar a); intros [= <-]; eauto.
  - split; [apply IH2|]. intros a. rewrite hex_DecodeString_pair.
    destruct (fromHexChar a); [|intros [= <-]; eauto].
    destruct (fromHexChar q); [|intros [= <-]; eauto].
    destruct (hex_DecodeString t) as [bs|e'] eqn:E; [discriminate|].
    intros [= ->]. now apply IH1.
Qed.

Lemma ioutil_ReadAll_spec (r : Reader) :
  ioutil_ReadAll r = (reader_bytes r, reader_failure r).
Proof.
  induction r as [|e|bs rest IH]; simpl; try reflexivity.
  now rewrite IH.
Qed.

(** ** The loop, one round at a time *)

Section Loop.
Context {W : Type} (b : Provider W).

Lemma List_loop_step s pfx ls (st : State W) :
  List_loop b s pfx ls st =
  if Z_lt_dec 0 (maxSize ls) then
    match List_body b s pfx ls st with
    | (Done (Next ls'), st') => List_loop b s pfx ls' st'
    | (Done (Stop r), st') => (Done r, st')
    | (Panicked p, st') => (Panicked p, st')
    end
  else (Done (Val (items ls)), st).
Proof.
  simp List_loop.
  destruct (Z_lt_dec 0 (maxSize ls)) as [Hpos|Hn]; simpl; [|reflexivity].
  unfold inspect.
  destruct (List_body b s pfx ls st) as [[[ls'|r]|p] st'] eqn:E;
    reflexivity.
Qed.

Lemma maxReqSize_of_min m : maxReqSize_of m = Z.min m 1000.
Proof. unfold maxReqSize_of. destruct (Z.ltb_spec m 1000); lia. Qed.

(** [List_body] spelled out against the provider's answer. *)
Lemma List_body_eq s pfx ls (st : State W) :
  List_body b s pfx ls st =
  let req := maxReqSize_of (maxSize ls) in
  let '(r, w) := oss_List b (bucket s) pfx "" (marker ls) req (world st) in
  let st' := emit w (EvList (bucket s) pfx "" (marker ls) req r) st in
  match r with
  | inr err => (Done (Stop (Error (Foreign err))), st')
  | inl page =>
      match append_keys s (Contents page) (items ls) with
      | Panicked p => (Panicked p, st')
      | Done its =>
          if IsTruncated page then
            match last its with
            | Some it =>
                (Done (Next (mkLoop (maxSize ls - req) (addPrefix s it) its)),
                 st')
            | None => (Panicked IndexOutOfRange, st')
            end
          else (Done (Stop (Val its)), st')
      end
  end.
Proof.
  unfold List_body, mbind, call_List, lift, mret, mpanic. cbv zeta.
  destruct (oss_List b _ _ _ _ _ _) as [[page|err] w]; [|reflexivity].
  destruct (append_keys s _ _) as [its|p]; [|reflexivity].
  destruct (IsTruncated page); [|reflexivity].
  destruct (last its); reflexivity.
Qed.

End Loop.

Section LoopInduction.
Context {W : Type} (b : Provider W) (s : OSSStorage) (pfx : string).

(** Induction over the rounds of the loop. *)
Lemma List_loop_rounds
  (P : loop_state -> State W -> result (ret (list string)) * State W -> Prop) :
  (forall ls st, ~ 0 < maxSize ls -> P ls st (Done (Val (items ls)), st)) ->
  (forall ls st ls' st',
      0 < maxSize ls ->
      List_body b s pfx ls st = (Done (Next ls'), st') ->
      P ls' st' (List_loop b s pfx ls' st') ->
      P ls st (List_loop b s pfx ls' st')) ->
  (forall ls st r st',
      0 < maxSize ls ->
      List_body b s pfx ls st = (Done (Stop r), st') ->
      P ls st (Done r, st')) ->
  (forall ls st p st',
      0 < maxSize ls ->
      List_body b s pfx ls st = (Panicked p, st') ->
      P ls st (Panicked p, st')) ->
  forall ls st, P ls st (List_loop b s pfx ls st).
Proof.
  intros Hexit Hnext Hstop Hpanic ls.
  remember (Z.to_nat (maxSize ls)) as n eqn:Hn.
  revert ls Hn.
  induction n as [n IH] using lt_wf_ind.
  intros ls Hn st. rewrite List_loop_step.
  destruct (Z_lt_dec 0 (maxSize ls)) as [Hpos|Hneg]; [|now apply Hexit].
  destruct (List_body b s pfx ls st) as [[[ls'|r]|p] st'] eqn:E.
  - apply (Hnext _ _ _ _ Hpos E).
    apply (IH (Z.to_nat (maxSize ls'))); [|reflexivity].
    subst n. exact (List_body_decreases b _ _ _ _ _ _ Hpos E).
  - now apply Hstop.
  - now apply Hpanic.
Qed.

(** One round adds exactly one listing request to the trace. *)
Lemma List_body_trace ls (st : State W) :
  exists r,
    trace (List_body b s pfx ls st).2
    = trace st ++ [EvList (bucket s) pfx "" (marker ls)
                     (maxReqSize_of (maxSize ls)) r] /\
    r = (oss_List b (bucket s) pfx "" (marker ls)
           (maxReqSize_of (maxSize ls)) (world st)).1.
Proof.
  rewrite List_body_eq. cbv zeta.
  destruct (oss_List b _ _ _ _ _ _) as [r w]. exists r.
  split; [|reflexivity].
  destruct r as [page|err]; [|reflexivity].
  destruct (append_keys s _ _) as [its|p]; [|reflexivity].
  destruct (IsTruncated page); [|reflexivity].
  destruct (last its); reflexivity.
Qed.

(** An error that the loop returns is the provider's error of the last
    listing request, as it came. *)
Lemma List_loop_error ls (st : State W) e :
  (List_loop b s pfx ls st).1 = Done (Error e) ->
  exists evs mark max ge,
    trace (List_loop b s pfx ls st).2
    = trace st ++ evs ++ [EvList (bucket s) pfx "" mark max (inr ge)] /\
    e = Foreign ge.
Proof.
  revert ls st.
  apply (List_loop_rounds (fun ls st out =>
    out.1 = Done (Error e) ->
    exists evs mark max ge,
      trace out.2
      = trace st ++ evs ++ [EvList (bucket s) pfx "" mark max (inr ge)] /\
      e = Foreign ge)).
  - intros ls st _ H. discriminate H.
  - intros ls st ls' st' Hpos E IH H.
    destruct (IH H) as (evs & mark & max & ge & Htr & He).
    destruct (List_body_trace ls st) as (r & Hb & _).
    rewrite E in Hb. simpl in Hb.
    exists (EvList (bucket s) pfx "" (marker ls)
              (maxReqSize_of (maxSize ls)) r :: evs), mark, max, ge.
    split; [|exact He].
    rewrite Htr, Hb, <- app_assoc. reflexivity.
  - intros ls st r st' Hpos E H. simpl in H.
    injection H as ->.
    rewrite List_body_eq in E. cbv zeta in E.
    destruct (oss_List b _ _ _ _ _ _) as [[page|err] w].
    + destruct (append_keys s _ _) as [its|p]; [|discriminate].
      destruct (IsTruncated page); [|discriminate].
      destruct (last its); discriminate.
    + injection E as <- <-.
      exists [], (marker ls), (maxReqSize_of (maxSize ls)), err.
      split; reflexivity.
  - intros ls st p st' _ _ H. discriminate H.
Qed.

End LoopInduction.

Section Listing.
Context {W : Type} (b : Provider W) (s : OSSStorage).

Lemma append_keys_strip (keys : list oss_Key) (acc its : list string) :
  append_keys s keys acc = Done its ->
  its = acc ++ (strip s <$> (Key <$> keys)).
Proof.
  revert acc. induction keys as [|k keys IH]; intros acc; simpl.
  - intros [= <-]. now rewrite app_nil_r.
  - unfold removePrefix, slice_from.
    destruct (_ <=? _)%nat; [|discriminate].
    intros H. apply IH in H. rewrite H, <- app_assoc. reflexivity.
Qed.

Lemma append_keys_long (keys : list oss_Key) (acc : list string) :
  Forall (fun k => (String.length (prefix s) + 1 <= String.length (Key k))%nat)
    keys ->
  append_keys s keys acc = Done (acc ++ (strip s <$> (Key <$> keys))).
Proof.
  intros H. revert acc. induction H as [|k keys Hk _ IH]; intros acc; simpl.
  - now rewrite app_nil_r.
  - unfold removePrefix, slice_from.
    destruct (Nat.leb_spec (String.length (prefix s) + 1)
                (String.length (Key k))) as [_|Hlt]; [|lia].
    rewrite IH, <- app_assoc. reflexivity.
Qed.

Lemma List_body_next pfx ls (st : State W) ls' st' :
  List_body b s pfx ls st = (Done (Next ls'), st') ->
  exists page w it,
    oss_List b (bucket s) pfx "" (marker ls) (maxReqSize_of (maxSize ls))
      (world st) = (inl page, w) /\
    append_keys s (Contents page) (items ls) = Done (items ls') /\
    IsTruncated page = true /\
    last (items ls') = Some it /\
    marker ls' = addPrefix s it /\
    maxSize ls' = maxSize ls - maxReqSize_of (maxSize ls) /\
    st' = emit w (EvList (bucket s) pfx "" (marker ls)
                    (maxReqSize_of (maxSize ls)) (inl page)) st.
Proof.
  rewrite List_body_eq. cbv zeta.
  destruct (oss_List b _ _ _ _ _ _) as [[page|err] w]; [|discriminate].
  destruct (append_keys s _ _) as [its|p] eqn:Ek; [|discriminate].
  destruct (IsTruncated page) eqn:Et; [|discriminate].
  destruct (last its) as [it|] eqn:El; [|discriminate].
  intros [= <- <-]. exists page, w, it. simpl. repeat split; assumption.
Qed.

Lemma List_body_stop pfx ls (st : State W) r st' :
  List_body b s pfx ls st = (Done (Stop r), st') ->
  exists answer w,
    oss_List b (bucket s) pfx "" (marker ls) (maxReqSize_of (maxSize ls))
      (world st) = (answer, w) /\
    st' = emit w (EvList (bucket s) pfx "" (marker ls)
                    (maxReqSize_of (maxSize ls)) answer) st /\
    match answer with
    | inr err => r = Error (Foreign err)
    | inl page =>
        exists its, append_keys s (Contents page) (items ls) = Done its /\
                    IsTruncated page = false /\ r = Val its
    end.
Proof.
  rewrite List_body_eq. cbv zeta.
  destruct (oss_List b _ _ _ _ _ _) as [[page|err] w].
  - destruct (append_keys s _ _) as [its|p] eqn:Ek; [|discriminate].
    destruct (IsTruncated page) eqn:Et.
    + destruct (last its); discriminate.
    + intros [= <- <-]. exists (inl page), w. repeat split.
      exists its. repeat split; assumption.
  - intros [= <- <-]. exists (inr err), w. repeat split.
Qed.

Lemma maxReqSize_of_within m : (maxReqSize_of m <=? 1000) = true.
Proof. rewrite maxReqSize_of_min. apply Z.leb_le. lia. Qed.

(** What a whole run of the loop sends and returns, for any provider: every
    request is a listing request for at most 1000 keys, and a list that is
    returned is the accumulated one followed by the keys of the pages, each
    less its first [len(prefix)+1] characters, in the order they came. *)
Lemma List_loop_trace pfx ls (st : State W) :
  exists evs,
    trace (List_loop b s pfx ls st).2 = trace st ++ evs /\
    forallb (page_within 1000) evs = true /\
    (forall its, (List_loop b s pfx ls st).1 = Done (Val its) ->
                 its = items ls ++ (strip s <$> listed_keys evs)).
Proof.
  revert ls st.
  apply (List_loop_rounds b s pfx (fun ls st out =>
    exists evs,
      trace out.2 = trace st ++ evs /\
      forallb (page_within 1000) evs = true /\
      (forall its, out.1 = Done (Val its) ->
                   its = items ls ++ (strip s <$> listed_keys evs)))).
  - intros ls st _. exists []. simpl. rewrite !app_nil_r.
    repeat split. now intros its [= <-].
  - intros ls st ls' st' _ E (evs & Htr & Hb & Hits).
    destruct (List_body_next _ _ _ _ _ E)
      as (page & w & it & _ & Hk & _ & _ & _ & _ & ->).
    apply append_keys_strip in Hk.
    eexists (_ :: evs). split; [|split].
    + rewrite Htr. simpl. rewrite <- app_assoc. reflexivity.
    + simpl. now rewrite maxReqSize_of_within, Hb.
    + intros its H. rewrite (Hits its H), Hk. simpl.
      now rewrite fmap_app, app_assoc.
  - intros ls st r st' _ E.
    destruct (List_body_stop _ _ _ _ _ E) as (answer & w & _ & -> & Hr).
    eexists [_]. split; [reflexivity|]. split.
    + simpl. now rewrite maxReqSize_of_within.
    + intros its [= ->]. destruct answer as [page|err]; [|discriminate].
      destruct Hr as (its' & Hk & _ & [= ->]).
      apply append_keys_strip in Hk. simpl. now rewrite app_nil_r.
  - intros ls st p st' _ E.
    destruct (List_body_trace b s pfx ls st) as (r & Hb & _).
    rewrite E in Hb. eexists [_]. split; [exact Hb|]. split.
    + simpl. now rewrite maxReqSize_of_within.
    + intros its H. discriminate H.
Qed.

End Listing.

(** A round entered with nothing accumulated that is answered by an empty
    page marked as truncated panics at the marker update. *)
Lemma List_loop_empty_truncated {W : Type} (b : Provider W) (s : OSSStorage)
  (pfx : string) (ls : loop_state) (st : State W) (page : ListResp) (w : W) :
  0 < maxSize ls ->
  items ls = [] ->
  oss_List b (bucket s) pfx "" (marker ls) (Z.min (maxSize ls) 1000) (world st)
  = (inl page, w) ->
  Contents page = [] ->
  IsTruncated page = true ->
  List_loop b s pfx ls st
  = (Panicked IndexOutOfRange,
     emit w (EvList (bucket s) pfx "" (marker ls) (Z.min (maxSize ls) 1000)
               (inl page)) st).
Proof.
  intros Hpos Hits Hpage Hnil Htrunc.
  rewrite List_loop_step.
  destruct (Z_lt_dec 0 (maxSize ls)) as [_|Hn]; [|contradiction].
  rewrite List_body_eq. cbv zeta. rewrite maxReqSize_of_min, Hpage.
  rewrite Hnil, Hits, Htrunc. reflexivity.
Qed.

(** A round that is answered with a page. *)
Lemma List_loop_round {W : Type} (b : Provider W) (s : OSSStorage)
  (pfx : string) (ls : loop_state) (st : State W)
  (page : ListResp) (w : W) (its : list string) :
  0 < maxSize ls ->
  oss_List b (bucket s) pfx "" (marker ls) (Z.min (maxSize ls) 1000) (world st)
  = (inl page, w) ->
  append_keys s (Contents page) (items ls) = Done its ->
  List_loop b s pfx ls st =
  if IsTruncated page then
    match last its with
    | Some it =>
        List_loop b s pfx
          (mkLoop (maxSize ls - Z.min (maxSize ls) 1000) (addPrefix s it) its)
          (emit w (EvList (bucket s) pfx "" (marker ls)
                     (Z.min (maxSize ls) 1000) (inl page)) st)
    | None =>
        (Panicked IndexOutOfRange,
         emit w (EvList (bucket s) pfx "" (marker ls)
                   (Z.min (maxSize ls) 1000) (inl page)) st)
    end
  else (Done (Val its),
        emit w (EvList (bucket s) pfx "" (marker ls)
                  (Z.min (maxSize ls) 1000) (inl page)) st).
Proof.
  intros Hpos Hpage Hkeys. rewrite List_loop_step.
  destruct (Z_lt_dec 0 (maxSize ls)) as [_|Hn]; [|contradiction].
  rewrite List_body_eq. cbv zeta. rewrite maxReqSize_of_min, Hpage, Hkeys.
  destruct (IsTruncated page); [|reflexivity].
  destruct (last its); reflexivity.
Qed.

(** ** Pagination against a bucket that serves its keys in pages *)

Section Pagination.
Context {W : Type} (b : Provider W) (Inv : W -> Prop).
Context (s : OSSStorage) (dir : string) (ks : list string).
Hypothesis Hunder : all_under (addPrefix s dir) ks = true.
Hypothesis Hserve : serves_pages b Inv (bucket s) (addPrefix s dir) ks.

Lemma keys_under (l : list string) :
  l ⊆ ks -> Forall (fun k => String.prefix (addPrefix s dir) k = true) l.
Proof.
  intros Hsub. apply Forall_forall. intros k Hk.
  unfold all_under in Hunder. rewrite forallb_forall in Hunder.
  apply Hunder, list_elem_of_In, Hsub, Hk.
Qed.

Lemma restore_keys (l : list string) :
  l ⊆ ks -> addPrefix s <$> (strip s <$> l) = l.
Proof.
  intros Hsub. rewrite <- list_fmap_compose.
  rewrite <- (list_fmap_id l) at 2.
  apply Forall_fmap_ext. eapply Forall_impl; [apply (keys_under l Hsub)|].
  intros k Hk. simpl. now apply (under_prefix_key s dir k).
Qed.

Lemma page_keys_long (l : list string) :
  l ⊆ ks ->
  Forall (fun k => (String.length (prefix s) + 1 <= String.length (Key k))%nat)
    (mkKey <$> l).
Proof.
  intros Hsub. apply Forall_fmap.
  eapply Forall_impl; [apply (keys_under l Hsub)|].
  intros k Hk. simpl. now apply (under_prefix_key s dir k).
Qed.

Lemma Key_mkKey (l : list string) : Key <$> (mkKey <$> l) = l.
Proof. rewrite <- list_fmap_compose. apply list_fmap_id. Qed.

Lemma page_subseteq (n r : nat) : take r (drop n ks) ⊆ ks.
Proof.
  intros k Hk. apply elem_of_take in Hk as (i & Hi & _).
  rewrite lookup_drop in Hi. eapply list_elem_of_lookup_2, Hi.
Qed.

(** The loop invariant: with the first [n] keys accumulated and the marker
    after them, a budget of [m] brings the next [m] keys, as far as there
    are any. *)
Lemma pages_loop (k : nat) :
  forall (m : Z) (n : nat) (its : list string) (st : State W),
    Z.to_nat m = k ->
    (n <= length ks)%nat ->
    addPrefix s <$> its = take n ks ->
    Inv (world st) ->
    exists res,
      (List_loop b s (addPrefix s dir) (mkLoop m (marker_at ks n) its) st).1
      = Done (Val res) /\
      addPrefix s <$> res = take (n + Z.to_nat m) ks.
Proof.
  induction k as [k IH] using lt_wf_ind.
  intros m n its st Hk Hn Hits Hinv.
  rewrite List_loop_step. simpl.
  destruct (Z_lt_dec 0 m) as [Hpos|Hneg].
  2:{ exists its. split; [reflexivity|].
      replace (Z.to_nat m) with 0%nat by lia. now rewrite Nat.add_0_r. }
  rewrite List_body_eq. cbv zeta. simpl.
  rewrite maxReqSize_of_min.
  set (req := Z.min m 1000).
  destruct (Hserve n req (world st) Hn ltac:(lia) Hinv) as (w' & -> & Hinv').
  unfold page_at. simpl.
  rewrite (append_keys_long s _ its
             (page_keys_long _ (page_subseteq n (Z.to_nat req)))).
  rewrite Key_mkKey.
  set (its' := its ++ (strip s <$> take (Z.to_nat req) (drop n ks))).
  assert (addPrefix s <$> its' = take (n + Z.to_nat req) ks) as Hits'.
  { unfold its'. rewrite fmap_app, Hits, restore_keys
      by apply page_subseteq. apply take_take_drop. }
  case_bool_decide as Htrunc.
  - rewrite length_drop in Htrunc.
    destruct (last its') as [it|] eqn:Hlast.
    + assert (marker_at ks (n + Z.to_nat req) = addPrefix s it) as Hmark.
      { pose proof (f_equal last Hits') as Hl.
        rewrite fmap_last, Hlast, last_lookup in Hl. simpl in Hl.
        rewrite length_take_le in Hl by lia.
        destruct (n + Z.to_nat req)%nat as [|j] eqn:Ej; [lia|].
        simpl in *. rewrite lookup_take_lt in Hl by lia.
        now rewrite <- Hl. }
      rewrite <- Hmark.
      destruct (IH (Z.to_nat (m - req)) ltac:(lia) (m - req)
                  (n + Z.to_nat req)%nat its'
                  (emit w' (EvList (bucket s) (addPrefix s dir) ""
                              (marker_at ks n) req
                              (inl (page_at ks n req))) st)
                  eq_refl ltac:(lia) Hits' Hinv')
        as (res & Hres & Hfm).
      exists res. unfold page_at in Hres.
      rewrite bool_decide_eq_true_2 in Hres by (rewrite length_drop; lia).
      split; [exact Hres|].
      rewrite Hfm. f_equal. lia.
    + apply last_None in Hlast.
      apply (f_equal length) in Hits'.
      rewrite Hlast, length_take_le in Hits' by lia. simpl in Hits'. lia.
  - rewrite length_drop in Htrunc.
    exists its'. split; [reflexivity|].
    rewrite Hits', !take_ge by lia. reflexivity.
Qed.

End Pagination.

Lemma paged_serves_db_keys :
  serves_pages (paged (db_keys ++ ["backups/x"])) (fun _ => True)
    "bkt" "backups/db/" db_keys.
Proof.
  intros n max [] Hn Hmax _. exists tt. split; [|exact I].
  destruct n as [|[|[|[|n]]]]; [reflexivity..|simpl in Hn; lia].
Qed.

(** ** PathCodec *)

(** C6: stripping the prefix from the prefixed form of a logical path [K]
    gives [K] back, where [addPrefix] joins the configured prefix and [K]
    with one slash and [removePrefix] cuts [len(prefix)+1] leading
    characters.  It holds for every [K], so in particular for those that
    do not already contain the prefix. *)
Theorem prefix_round_trip (s : OSSStorage) (K : string) :
  addPrefix s K = prefix s +:+ "/" +:+ K /\
  String.length (addPrefix s K)
    = (String.length (prefix s) + 1 + String.length K)%nat /\
  removePrefix s (addPrefix s K)
    = Done (str_drop (String.length (prefix s) + 1) (addPrefix s K)) /\
  removePrefix s (addPrefix s K) = Done K.
Proof.
  split; [reflexivity|].
  split; [apply addPrefix_length|].
  split; [|apply removePrefix_addPrefix].
  unfold removePrefix, slice_from. rewrite addPrefix_length.
  destruct (Nat.leb_spec (String.length (prefix s) + 1)
              (String.length (prefix s) + 1 + String.length K)) as [_|H];
    [reflexivity | lia].
Qed.

Example prefix_round_trip_ex :
  removePrefix (mkOSSStorage "bkt" "r" "backups")
    (addPrefix (mkOSSStorage "bkt" "r" "backups") "backups/db/a")
  = Done "backups/db/a".
Proof. reflexivity. Qed.

(** ** BucketProvisioner *)

(** C3: while the adapter is constructed, a bucket-creation request is sent
    exactly when the one-key probe answers with an error; after a successful
    probe the probe is the only request and the adapter is returned; after a
    failed probe the outcome is that of the creation attempt, an error and no
    adapter when it fails too. *)
Theorem provision_probe_then_create {W : Type} (b : Provider W)
  (bucketName pfx region : string) (internal : bool)
  (accessKeyID accessKeySecret : string) (secure : bool) (bucketACL : ACL)
  (st : State W) :
  let probe := oss_List b bucketName "" "/" "" 1 (world st) in
  let create := oss_PutBucket b bucketName bucketACL probe.2 in
  let out := NewOSSStorage b bucketName pfx region internal
               accessKeyID accessKeySecret secure bucketACL st in
  exists evs : list Event,
    trace out.2 = trace st ++ evs /\
    existsb is_PutBucket evs
      = match probe.1 with inl _ => false | inr _ => true end /\
    match probe.1 with
    | inl _ =>
        evs = [EvList bucketName "" "/" "" 1 probe.1] /\
        out.1 = Done (Val (mkOSSStorage bucketName region pfx))
    | inr _ =>
        evs = [EvList bucketName "" "/" "" 1 probe.1;
               EvPutBucket bucketName bucketACL create.1] /\
        out.1 = Done (match create.1 with
                      | Some e => Error (Foreign e)
                      | None => Val (mkOSSStorage bucketName region pfx)
                      end)
    end.
Proof.
  cbv zeta.
  unfold NewOSSStorage, mbind, call_List, call_PutBucket, mret, emit.
  destruct (oss_List b bucketName "" "/" "" 1 (world st)) as [[page|e] w];
    simpl.
  - eexists; repeat split; reflexivity.
  - destruct (oss_PutBucket b bucketName bucketACL w) as [[e'|] w']; simpl;
      (eexists; split; [rewrite <- app_assoc; reflexivity|]);
      repeat split; reflexivity.
Qed.

Example provision_existing_bucket :
  NewOSSStorage (scripted all_fine) "bkt" "backups" "r" false "id" "key" true
    PublicRead start
  = (Done (Val (mkOSSStorage "bkt" "r" "backups")),
     mkState tt [EvList "bkt" "" "/" "" 1 (inl (mkListResp [] false))]).
Proof. reflexivity. Qed.

Example provision_both_fail :
  NewOSSStorage
    (scripted (mkScript (inr boom) (Some denied) (None, None) None None))
    "bkt" "backups" "r" false "id" "key" true PublicRead start
  = (Done (Error (Foreign denied)),
     mkState tt [EvList "bkt" "" "/" "" 1 (inr boom);
                 EvPutBucket "bkt" PublicRead (Some denied)]).
Proof. reflexivity. Qed.

(** ** Not-found mapping *)

(** C4: when the provider's read call fails, [Get] compares the text of the
    error with the literal [not_found_text]: on equality it returns the typed
    not-found error, otherwise the provider's error as it came.  [Delete]
    returns what the provider's delete call returned, and an error returned
    by [List] is the provider's error of its last listing request: neither
    makes a not-found error. *)
Theorem not_found_only_in_Get {W : Type} (b : Provider W) (s : OSSStorage)
  (path : string) (st : State W) :
  (forall resp err w,
      oss_GetResponse b (bucket s) (addPrefix s path) (world st)
      = ((resp, Some err), w) ->
      (err_Error err = not_found_text ->
       (Get b s path st).1 = Done (Error (ErrNotFound (addPrefix s path)))) /\
      (err_Error err <> not_found_text ->
       (Get b s path st).1 = Done (Error (Foreign err)))) /\
  (Delete b s path st).1
  = Done (Foreign <$> (oss_Del b (bucket s) (addPrefix s path) (world st)).1) /\
  (forall p, (Delete b s path st).1 <> Done (Some (ErrNotFound p))) /\
  (forall N e,
      (List b s path N st).1 = Done (Error e) ->
      exists evs mark max ge,
        trace (List b s path N st).2
        = trace st ++ evs
            ++ [EvList (bucket s) (addPrefix s path) "" mark max (inr ge)] /\
        e = Foreign ge).
Proof.
  split; [|split; [|split]].
  - intros resp err w H.
    unfold Get, mbind, call_GetResponse, mret, mpanic. rewrite H.
    destruct (String.eqb_spec (err_Error err) not_found_text) as [Heq|Hne].
    + split; [intros _|intros Hd; contradiction].
      destruct resp; reflexivity.
    + split; [intros Heq; contradiction|intros _].
      destruct resp; reflexivity.
  - unfold Delete, mbind, call_Del, mret.
    destruct (oss_Del b _ _ _) as [r w]. reflexivity.
  - intros p. unfold Delete, mbind, call_Del, mret.
    destruct (oss_Del b _ _ _) as [[e|] w]; simpl; discriminate.
  - intros N e H. unfold List in *. now apply List_loop_error.
Qed.

Lemma not_found_only_in_Get_witness :
  let sc := mkScript (inr no_such_key) None (None, Some no_such_key)
              None (Some no_such_key) in
  let s := mkOSSStorage "bkt" "r" "backups" in
  (Get (scripted sc) s "db/a" start).1
  = Done (Error (ErrNotFound (addPrefix s "db/a"))) /\
  (Delete (scripted sc) s "db/a" start).1 = Done (Some (Foreign no_such_key)) /\
  (exists evs mark max ge,
      trace (List (scripted sc) s "db/a" 10 start).2
      = [] ++ evs ++ [EvList "bkt" "backups/db/a" "" mark max (inr ge)] /\
      Foreign no_such_key = Foreign ge).
Proof.
  intros sc s.
  destruct (not_found_only_in_Get (scripted sc) s "db/a" start)
    as (Hget & Hdel & _ & Hlist).
  split; [|split].
  - destruct (Hget None no_such_key tt eq_refl) as [Hyes _].
    apply Hyes. reflexivity.
  - exact Hdel.
  - apply (Hlist 10 (Foreign no_such_key)). reflexivity.
Defined.

Example Get_absent_key :
  (Get (scripted (mkScript (inr boom) None (None, Some no_such_key) None None))
     (mkOSSStorage "bkt" "r" "backups") "db/a" start).1
  = Done (Error (ErrNotFound "backups/db/a")).
Proof. reflexivity. Qed.

Example Get_other_error :
  (Get (scripted (mkScript (inr boom) None (None, Some denied) None None))
     (mkOSSStorage "bkt" "r" "backups") "db/a" start).1
  = Done (Error (Foreign denied)).
Proof. reflexivity. Qed.

(** ** ChecksumEnvelope: the digest header *)

(** C5: after a successful read, [Get] returns an error when the digest
    header is absent and when it is present without a value; otherwise the
    first value, less one leading and one trailing quote, is decoded from
    hexadecimal, and [Get] returns the decoder's error when that text is not
    valid hexadecimal and the checksum-wrapped stream when it is; a stream is
    returned in no other case. *)
Theorem Get_requires_digest {W : Type} (b : Provider W) (s : OSSStorage)
  (path : string) (st : State W) (resp : Response) (w : W)
  (Hread : oss_GetResponse b (bucket s) (addPrefix s path) (world st)
           = ((Some resp, None), w)) :
  let out := (Get b s path st).1 in
  match Header resp !! "Etag" with
  | None => out = Done (Error (errors_New "No Etag header"))
  | Some [] => out = Done (Error (errors_New "Etag header is empty"))
  | Some (v :: _) =>
      let h := strings_TrimSuffix (strings_TrimPrefix v quote) quote in
      if valid_hex h
      then exists cs, hex_DecodeString h = Val cs /\
                      out = Done (Val (NewChecksummingReader (Body resp) cs))
      else exists e, hex_DecodeString h = Error e /\ out = Done (Error e)
  end /\
  (forall r, out = Done (Val r) ->
     exists v rest cs,
       Header resp !! "Etag" = Some (v :: rest) /\
       hex_DecodeString
         (strings_TrimSuffix (strings_TrimPrefix v quote) quote) = Val cs /\
       r = NewChecksummingReader (Body resp) cs) /\
  (forall h,
     strings_TrimSuffix (strings_TrimPrefix (quote +:+ h +:+ quote) quote) quote
     = h).
Proof.
  cbv zeta.
  unfold Get, mbind, call_GetResponse, mret, mpanic. rewrite Hread. simpl.
  unfold Get_checksum.
  split; [|split; [|exact unquote_quoted]].
  - destruct (Header resp !! "Etag") as [[|v rest]|]; try reflexivity.
    pose proof (hex_DecodeString_valid
      (strings_TrimSuffix (strings_TrimPrefix v quote) quote)) as Hv.
    destruct (hex_DecodeString _) as [cs|e]; rewrite Hv.
    + exists cs. split; reflexivity.
    + exists e. split; reflexivity.
  - intros r. destruct (Header resp !! "Etag") as [[|v rest]|];
      try discriminate.
    destruct (hex_DecodeString _) as [cs|e] eqn:E; [|discriminate].
    intros [= <-]. exists v, rest, cs. repeat split. exact E.
Qed.

Lemma Get_requires_digest_witness :
  let resp := etag_response [quote +:+ md5_of_nothing +:+ quote] in
  let sc := mkScript (inr boom) None (Some resp, None) None None in
  exists cs,
    hex_DecodeString md5_of_nothing = Val cs /\
    (Get (scripted sc) (mkOSSStorage "bkt" "r" "backups") "db/a" start).1
    = Done (Val (NewChecksummingReader EOF cs)).
Proof.
  intros resp sc.
  exact (proj1 (Get_requires_digest (scripted sc)
                  (mkOSSStorage "bkt" "r" "backups") "db/a" start resp tt
                  eq_refl)).
Defined.

Example Get_without_header :
  (Get (scripted (mkScript (inr boom) None
                    (Some (mkResponse ∅ EOF), None) None None))
     (mkOSSStorage "bkt" "r" "backups") "db/a" start).1
  = Done (Error (errors_New "No Etag header")).
Proof. vm_compute. reflexivity. Qed.

Example Get_with_empty_header :
  (Get (scripted (mkScript (inr boom) None
                    (Some (etag_response []), None) None None))
     (mkOSSStorage "bkt" "r" "backups") "db/a" start).1
  = Done (Error (errors_New "Etag header is empty")).
Proof. vm_compute. reflexivity. Qed.

Example Get_with_bad_digest :
  (Get (scripted (mkScript (inr boom) None
                    (Some (etag_response [quote +:+ "xyz1" +:+ quote]), None)
                    None None))
     (mkOSSStorage "bkt" "r" "backups") "db/a" start).1
  = Done (Error (hex_InvalidByteError "x")).
Proof. vm_compute. reflexivity. Qed.

(** ** Writes *)

(** C7 (as stated, refuted): an adapter constructed with the access setting
    [PublicRead] sends its write with [Private]. *)
Lemma Put_ignores_configured_acl :
  let b := scripted all_fine in
  let s := mkOSSStorage "bkt" "r" "backups" in
  let st1 := mkState tt [EvList "bkt" "" "/" "" 1 (inl (mkListResp [] false))] in
  NewOSSStorage b "bkt" "backups" "r" false "id" "key" true PublicRead start
  = (Done (Val s), st1) /\
  trace (Put b s "db/a" [] st1).2
  = trace st1
      ++ [EvPut "bkt" "backups/db/a" [] "application/octet-stream" Private None]
  /\ Private <> PublicRead.
Proof. repeat split. discriminate. Qed.

(** C7 (amended): every call to [Put] sends one write request, for the
    prefixed key and the given bytes, with the content type
    ["application/octet-stream"] and the access setting [Private], one of the
    enumerated settings, whatever was configured at construction; [Put]
    returns what that request returned. *)
Theorem Put_request {W : Type} (b : Provider W) (s : OSSStorage)
  (path : string) (data : list Byte.byte) (st : State W) :
  let answer :=
    oss_Put b (bucket s) (addPrefix s path) data "application/octet-stream"
      Private (world st) in
  Put b s path data st
  = (Done (Foreign <$> answer.1),
     mkState answer.2
       (trace st ++ [EvPut (bucket s) (addPrefix s path) data
                       "application/octet-stream" Private answer.1])) /\
  Private ∈ enumerated_acls.
Proof.
  cbv zeta. unfold Put, mbind, call_Put, mret, emit.
  destruct (oss_Put b _ _ _ _ _ _) as [r w]. simpl.
  split; [reflexivity|]. unfold enumerated_acls. set_solver.
Qed.

(** C9: [PutReader] reads the reader to its end and then behaves as [Put] on
    the bytes read: it is the specification's [putFromStream]; after a
    complete read it returns what [Put] returns on those bytes, and after a
    failed read it returns the read error and leaves the state, and so the
    trace of requests, as it was. *)
Theorem PutReader_refines_putFromStream {W : Type} (b : Provider W)
  (s : OSSStorage) (path : string) (reader : Reader) (st : State W) :
  PutReader b s path reader st = putFromStream_spec b s path reader st /\
  match reader_failure reader with
  | None =>
      PutReader b s path reader st = Put b s path (reader_bytes reader) st
  | Some e =>
      PutReader b s path reader st = (Done (Some (Foreign e)), st) /\
      existsb is_write (drop (length (trace st))
                          (trace (PutReader b s path reader st).2)) = false
  end.
Proof.
  unfold PutReader, putFromStream_spec.
  rewrite ioutil_ReadAll_spec.
  destruct (reader_failure reader) as [e|]; simpl.
  - repeat split. now rewrite drop_all.
  - split; reflexivity.
Qed.

Example PutReader_complete :
  PutReader (scripted all_fine) (mkOSSStorage "bkt" "r" "backups") "db/a"
    (Chunk [Byte.x01; Byte.x02] (Chunk [Byte.x03] EOF)) start
  = (Done None,
     mkState tt [EvPut "bkt" "backups/db/a" [Byte.x01; Byte.x02; Byte.x03]
                   "application/octet-stream" Private None]).
Proof. reflexivity. Qed.

Example PutReader_failed_read :
  PutReader (scripted all_fine) (mkOSSStorage "bkt" "r" "backups") "db/a"
    (Chunk [Byte.x01; Byte.x02] (Broken boom)) start
  = (Done (Some (Foreign boom)), start).
Proof. reflexivity. Qed.

(** ** PaginatedLister *)

(** C1: when the provider holds exactly the [M] keys [ks] under the prefix
    and serves them in pages, [List] with a count [N > 0] returns the logical
    paths of the first [min(N, M)] of them, in the order the provider
    returned them, and none of its requests asks for more than 1000 keys. *)
Theorem List_pagination_exact {W : Type} (b : Provider W) (Inv : W -> Prop)
  (s : OSSStorage) (dir : string) (ks : list string) (N : Z) (st : State W)
  (HN : 0 < N)
  (Hunder : all_under (addPrefix s dir) ks = true)
  (Hserve : serves_pages b Inv (bucket s) (addPrefix s dir) ks)
  (Hinv : Inv (world st)) :
  let M := Z.of_nat (length ks) in
  exists (its : list string) (evs : list Event),
    (List b s dir N st).1 = Done (Val its) /\
    Z.of_nat (length its) = Z.min N M /\
    addPrefix s <$> its = take (Z.to_nat (Z.min N M)) ks /\
    trace (List b s dir N st).2 = trace st ++ evs /\
    its = strip s <$> listed_keys evs /\
    forallb (page_within 1000) evs = true.
Proof.
  cbv zeta. unfold List.
  destruct (pages_loop b Inv s dir ks Hunder Hserve (Z.to_nat N) N 0 [] st
              eq_refl ltac:(lia) eq_refl Hinv) as (its & Hres & Hfm).
  simpl in Hres, Hfm.
  destruct (List_loop_trace b s (addPrefix s dir) (mkLoop N "" []) st)
    as (evs & Htr & Hbound & Hkeys).
  assert (take (Z.to_nat N) ks
          = take (Z.to_nat (Z.min N (Z.of_nat (length ks)))) ks) as Htake.
  { destruct (Z.le_ge_cases N (Z.of_nat (length ks))) as [Hle|Hge].
    - now rewrite Z.min_l by lia.
    - rewrite Z.min_r, !take_ge by lia. reflexivity. }
  exists its, evs. repeat split.
  - exact Hres.
  - apply (f_equal length) in Hfm.
    rewrite length_fmap, length_take in Hfm. lia.
  - now rewrite Hfm.
  - exact Htr.
  - exact (Hkeys its Hres).
  - exact Hbound.
Qed.

Lemma List_pagination_exact_witness :
  let s := mkOSSStorage "bkt" "r" "backups" in
  let b := paged (db_keys ++ ["backups/x"]) in
  exists (its : list string) (evs : list Event),
    (List b s "db/" 2 start).1 = Done (Val its) /\
    Z.of_nat (length its) = Z.min 2 3 /\
    addPrefix s <$> its = take 2 db_keys /\
    trace (List b s "db/" 2 start).2 = [] ++ evs /\
    its = strip s <$> listed_keys evs /\
    forallb (page_within 1000) evs = true.
Proof.
  intros s b.
  apply (List_pagination_exact b (fun _ => True) s "db/" db_keys 2 start);
    [lia | reflexivity | exact paged_serves_db_keys | exact I].
Defined.

Example List_across_pages :
  let out := List (paged (many_keys 2300)) (mkOSSStorage "bkt" "r" "backups")
               "" 2500 start in
  (length <$> (match out.1 with Done (Val its) => Some its | _ => None end),
   requested (trace out.2))
  = (Some 2300%nat, [1000; 1000; 500]).
Proof. vm_compute. reflexivity. Qed.

Example List_within_budget :
  let out := List (paged (many_keys 2300)) (mkOSSStorage "bkt" "r" "backups")
               "" 2100 start in
  (length <$> (match out.1 with Done (Val its) => Some its | _ => None end),
   requested (trace out.2))
  = (Some 2100%nat, [1000; 1000; 100]).
Proof. vm_compute. reflexivity. Qed.

(** C2: a round of the loop, entered with a positive budget, asks for
    [min(budget, 1000)] keys; the budget it leaves is the old one less that
    request size, whatever the number of keys in the page; the keys of the
    page, less their prefix, are appended to the accumulated result; when the
    page is marked as truncated the next marker is [addPrefix] of the last
    item of the accumulated result (and there is no next round when nothing
    has been accumulated), and when it is not the loop stops with the
    accumulated result. *)
Theorem List_round {W : Type} (b : Provider W) (s : OSSStorage)
  (pfx : string) (ls : loop_state) (st : State W)
  (page : ListResp) (w : W) (its : list string)
  (Hpos : 0 < maxSize ls)
  (Hpage : oss_List b (bucket s) pfx "" (marker ls)
             (Z.min (maxSize ls) 1000) (world st) = (inl page, w))
  (Hkeys : append_keys s (Contents page) (items ls) = Done its) :
  let req := Z.min (maxSize ls) 1000 in
  let st' := emit w (EvList (bucket s) pfx "" (marker ls) req (inl page)) st in
  its = items ls ++ (strip s <$> (Key <$> Contents page)) /\
  List_loop b s pfx ls st =
  if IsTruncated page then
    match last its with
    | Some it =>
        List_loop b s pfx (mkLoop (maxSize ls - req) (addPrefix s it) its) st'
    | None => (Panicked IndexOutOfRange, st')
    end
  else (Done (Val its), st').
Proof.
  cbv zeta. split; [now apply append_keys_strip|].
  now apply List_loop_round.
Qed.

Lemma List_round_witness :
  let s := mkOSSStorage "bkt" "r" "backups" in
  let page := mkListResp [mkKey "backups/db/a"; mkKey "backups/db/b"] true in
  let b := scripted (mkScript (inl page) None (None, None) None None) in
  ["db/a"; "db/b"] = [] ++ (strip s <$> (Key <$> Contents page)) /\
  List_loop b s "backups/db/" (mkLoop 2500 "" []) start
  = List_loop b s "backups/db/"
      (mkLoop 1500 "backups/db/b" ["db/a"; "db/b"])
      (mkState tt [EvList "bkt" "backups/db/" "" "" 1000 (inl page)]).
Proof.
  intros s page b.
  exact (List_round b s "backups/db/" (mkLoop 2500 "" []) start page tt
           ["db/a"; "db/b"] eq_refl eq_refl eq_refl).
Defined.

(** The budget pays for requests, not for keys: three requests use up a
    budget of 2500 although each brings a single key. *)
Example budget_counts_requests :
  let page := mkListResp [mkKey "backups/db/a"] true in
  let b := scripted (mkScript (inl page) None (None, None) None None) in
  List b (mkOSSStorage "bkt" "r" "backups") "db/" 2500 start
  = (Done (Val ["db/a"; "db/a"; "db/a"]),
     mkState tt
       [EvList "bkt" "backups/db/" "" "" 1000 (inl page);
        EvList "bkt" "backups/db/" "" "backups/db/a" 1000 (inl page);
        EvList "bkt" "backups/db/" "" "backups/db/a" 500 (inl page)]).
Proof. vm_compute. reflexivity. Qed.

(** C10: when the first page of a [List] call comes back empty and marked
    as truncated, so that nothing has been accumulated when the marker is
    updated, [items[len(items)-1]] is out of range and [List] panics; it
    returns neither a list nor an error. *)
Theorem List_panics_on_empty_truncated_page {W : Type} (b : Provider W)
  (s : OSSStorage) (prefix : string) (N : Z) (st : State W)
  (page : ListResp) (w : W)
  (HN : 0 < N)
  (Hpage : oss_List b (bucket s) (addPrefix s prefix) "" "" (Z.min N 1000)
             (world st) = (inl page, w))
  (Hnil : Contents page = [])
  (Htrunc : IsTruncated page = true) :
  List b s prefix N st
  = (Panicked IndexOutOfRange,
     emit w (EvList (bucket s) (addPrefix s prefix) "" "" (Z.min N 1000)
               (inl page)) st).
Proof.
  unfold List.
  now apply (List_loop_empty_truncated b s _ (mkLoop N "" []) st page w).
Qed.

Lemma List_panics_on_empty_truncated_page_witness :
  let sc := mkScript (inl (mkListResp [] true)) None (None, None) None None in
  List (scripted sc) (mkOSSStorage "bkt" "r" "backups") "db/" 10 start
  = (Panicked IndexOutOfRange,
     mkState tt [EvList "bkt" "backups/db/" "" "" 10
                   (inl (mkListResp [] true))]).
Proof.
  intros sc.
  apply (List_panics_on_empty_truncated_page (scripted sc)
           (mkOSSStorage "bkt" "r" "backups") "db/" 10 start
           (mkListResp [] true) tt);
    [lia | reflexivity | reflexivity | reflexivity].
Defined.

(** ** What the caller sees of the prefix *)

(** C8 (as stated, refuted): the not-found error that [Get] returns for the
    logical path ["db/a"] names the provider key ["backups/db/a"]. *)
Lemma Get_not_found_names_provider_key :
  let sc := mkScript (inr boom) None (None, Some no_such_key) None None in
  let s := mkOSSStorage "bkt" "r" "backups" in
  (Get (scripted sc) s "db/a" start).1
  = Done (Error (ErrNotFound "backups/db/a")) /\
  addPrefix s "db/a" = "backups/db/a" /\
  "backups/db/a" <> "db/a".
Proof. repeat split. discriminate. Qed.

(** C8 (amended): a list that [List] returns holds the keys of the pages,
    each less its first [len(prefix)+1] characters.  An error returned by
    [Put], [Delete] or [List] is the provider's own error as it came.  An
    error returned by [Get] is the provider's own error, one of the two
    digest-header errors, a decoding error, or the not-found error; the
    not-found error carries the prefixed provider key. *)
Theorem prefix_visibility {W : Type} (b : Provider W) (s : OSSStorage)
  (path : string) (st : State W) :
  (forall N its,
      (List b s path N st).1 = Done (Val its) ->
      exists evs,
        trace (List b s path N st).2 = trace st ++ evs /\
        its = strip s <$> listed_keys evs) /\
  (forall N e,
      (List b s path N st).1 = Done (Error e) -> exists ge, e = Foreign ge) /\
  (forall data e,
      (Put b s path data st).1 = Done (Some e) -> exists ge, e = Foreign ge) /\
  (forall e,
      (Delete b s path st).1 = Done (Some e) -> exists ge, e = Foreign ge) /\
  (forall e,
      (Get b s path st).1 = Done (Error e) ->
      e = ErrNotFound (addPrefix s path) \/
      (exists ge, e = Foreign ge) \/
      e = errors_New "No Etag header" \/
      e = errors_New "Etag header is empty" \/
      e = hex_ErrLength \/
      (exists c, e = hex_InvalidByteError c)).
Proof.
  split; [|split; [|split; [|split]]].
  - intros N its H. unfold List in *.
    destruct (List_loop_trace b s (addPrefix s path) (mkLoop N "" []) st)
      as (evs & Htr & _ & Hits).
    exists evs. split; [exact Htr|]. exact (Hits its H).
  - intros N e H. unfold List in H.
    destruct (List_loop_error b s _ _ _ _ H) as (_ & _ & _ & ge & _ & ->).
    now exists ge.
  - intros data e. unfold Put, mbind, call_Put, mret.
    destruct (oss_Put b _ _ _ _ _ _) as [[ge|] w]; simpl; [|discriminate].
    intros [= <-]. now exists ge.
  - intros e. unfold Delete, mbind, call_Del, mret.
    destruct (oss_Del b _ _ _) as [[ge|] w]; simpl; [|discriminate].
    intros [= <-]. now exists ge.
  - intros e. unfold Get, mbind, call_GetResponse, mret, mpanic.
    destruct (oss_GetResponse b _ _ _) as [[[resp|] [err|]] w]; simpl.
    + destruct (String.eqb _ _); intros [= <-]; eauto.
    + unfold Get_checksum.
      destruct (Header resp !! "Etag") as [[|v rest]|].
      * intros [= <-]. auto 6.
      * destruct (hex_DecodeString _) as [cs|e'] eqn:E; [discriminate|].
        intros [= ->].
        destruct (proj1 (hex_DecodeString_error_aux _ _) E) as [->|[c ->]];
          eauto 8.
      * intros [= <-]. auto 6.
    + destruct (String.eqb _ _); intros [= <-]; eauto.
    + discriminate.
Qed.

Lemma prefix_visibility_witness :
  let s := mkOSSStorage "bkt" "r" "backups" in
  let b := paged ["backups/db/a"; "backups/db/b"; "backups/x"] in
  exists evs,
    trace (List b s "db/" 5 start).2 = [] ++ evs /\
    ["db/a"; "db/b"] = strip s <$> listed_keys evs.
Proof.
  intros s b.
  exact (proj1 (prefix_visibility b s "db/" start) 5 ["db/a"; "db/b"] eq_refl).
Defined.

(** ** More on the listing loop *)

Section Footprint.
Context {W : Type} (b : Provider W) (s : OSSStorage) (pfx : string).

Lemma is_listing_of_round ls r :
  0 < maxSize ls ->
  is_listing_of (bucket s) pfx
    (EvList (bucket s) pfx "" (marker ls) (maxReqSize_of (maxSize ls)) r)
  = true.
Proof.
  intros Hpos. simpl. rewrite !String.eqb_refl, maxReqSize_of_within.
  rewrite maxReqSize_of_min. simpl.
  apply andb_true_iff. split; [|reflexivity]. apply Z.ltb_lt. lia.
Qed.

Lemma rounds_bound (m : Z) :
  0 < m ->
  1 + (Z.max 0 (m - Z.min m 1000) + 999) / 1000 <= (Z.max 0 m + 999) / 1000.
Proof. intros Hm. Z.div_mod_to_equations. lia. Qed.

Lemma one_round_bound (m : Z) : 0 < m -> 1 <= (Z.max 0 m + 999) / 1000.
Proof. intros Hm. Z.div_mod_to_equations. lia. Qed.

(** What a run of the loop sends, for any provider: listing requests only,
    all for the same bucket and prefix; the sizes asked for add up to no more
    than the budget; there are no more requests than thousands in the
    budget, rounded up. *)
Lemma List_loop_footprint ls (st : State W) :
  exists evs,
    trace (List_loop b s pfx ls st).2 = trace st ++ evs /\
    forallb (is_listing_of (bucket s) pfx) evs = true /\
    Forall (answered b) evs /\
    sum_Z (requested evs) <= Z.max 0 (maxSize ls) /\
    Z.of_nat (length evs) <= (Z.max 0 (maxSize ls) + 999) / 1000.
Proof.
  revert ls st.
  apply (List_loop_rounds b s pfx (fun ls st out =>
    exists evs,
      trace out.2 = trace st ++ evs /\
      forallb (is_listing_of (bucket s) pfx) evs = true /\
      Forall (answered b) evs /\
      sum_Z (requested evs) <= Z.max 0 (maxSize ls) /\
      Z.of_nat (length evs) <= (Z.max 0 (maxSize ls) + 999) / 1000)).
  - intros ls st Hneg. exists []. simpl. rewrite app_nil_r.
    repeat split; [constructor | lia | Z.div_mod_to_equations; lia].
  - intros ls st ls' st' Hpos E (evs & Htr & Hshape & Hans & Hsum & Hlen).
    destruct (List_body_next b s _ _ _ _ _ E)
      as (page & w & it & Hpage & _ & _ & _ & _ & Hm & ->).
    eexists (_ :: evs). split; [|split; [|split; [|split]]].
    + rewrite Htr. simpl. rewrite <- app_assoc. reflexivity.
    + change (forallb ?f (?x :: ?l)) with (f x && forallb f l).
      now rewrite is_listing_of_round, Hshape.
    + constructor; [|exact Hans]. exists (world st). now rewrite Hpage.
    + simpl. fold (sum_Z (requested evs)). rewrite Hm in Hsum.
      rewrite maxReqSize_of_min in *. lia.
    + rewrite Hm, maxReqSize_of_min in Hlen.
      pose proof (rounds_bound (maxSize ls) Hpos).
      simpl length. lia.
  - intros ls st r st' Hpos E.
    destruct (List_body_stop b s _ _ _ _ _ E) as (answer & w & Hpage & -> & _).
    eexists [_]. split; [reflexivity|]. split; [|split; [|split]].
    + change (forallb ?f [?x]) with (f x && true).
      now rewrite is_listing_of_round.
    + constructor; [|constructor]. exists (world st). now rewrite Hpage.
    + simpl. rewrite maxReqSize_of_min. lia.
    + pose proof (one_round_bound (maxSize ls) Hpos). simpl length. lia.
  - intros ls st p st' Hpos E.
    destruct (List_body_trace b s pfx ls st) as (r & Hb & Hr).
    rewrite E in Hb. eexists [_]. split; [exact Hb|].
    split; [|split; [|split]].
    + change (forallb ?f [?x]) with (f x && true).
      now rewrite is_listing_of_round.
    + constructor; [|constructor]. exists (world st). now rewrite Hr.
    + simpl. rewrite maxReqSize_of_min. lia.
    + pose proof (one_round_bound (maxSize ls) Hpos). simpl length. lia.
Qed.

Lemma listed_keys_within (evs : list Event) :
  honours_max b ->
  Forall (answered b) evs ->
  forallb (is_listing_of (bucket s) pfx) evs = true ->
  Z.of_nat (length (listed_keys evs)) <= sum_Z (requested evs).
Proof.
  intros Hmax Hans. induction Hans as [|ev evs Hev _ IH]; [reflexivity|].
  intros Hshape. apply andb_true_iff in Hshape as [Hone Hrest].
  destruct ev as [bkt p d m max r| | | |]; try discriminate.
  specialize (IH Hrest). destruct Hev as (w & Hw).
  simpl in Hone. rewrite !andb_true_iff in Hone.
  destruct Hone as [[_ Hpos] _]. apply Z.ltb_lt in Hpos.
  pose proof (Hmax bkt p d m max w Hpos) as Hpage. rewrite Hw in Hpage.
  change (sum_Z (requested (EvList bkt p d m max r :: evs)))
    with (max + sum_Z (requested evs)).
  destruct r as [page|err]; simpl.
  - rewrite length_app, length_fmap. lia.
  - lia.
Qed.

End Footprint.

(** X1: with a count that is not positive, [List] returns the empty list
    without an error and without a request. *)
Theorem List_without_budget {W : Type} (b : Provider W) (s : OSSStorage)
  (dir : string) (N : Z) (st : State W) (HN : N <= 0) :
  List b s dir N st = (Done (Val []), st).
Proof.
  unfold List. rewrite List_loop_step. simpl.
  destruct (Z_lt_dec 0 N) as [Hpos|_]; [lia | reflexivity].
Qed.

Lemma List_without_budget_witness :
  List (paged db_keys) (mkOSSStorage "bkt" "r" "backups") "db/" (-3) start
  = (Done (Val []), start).
Proof.
  apply (List_without_budget (paged db_keys)
           (mkOSSStorage "bkt" "r" "backups") "db/" (-3) start).
  lia.
Defined.

(** X2: whatever the provider answers, [List] sends listing requests only,
    each for the adapter's bucket, the prefixed prefix and no delimiter, and
    each for between 1 and 1000 keys; the sizes asked for add up to at most
    the count, and there are at most as many requests as thousands in the
    count, rounded up. *)
Theorem List_footprint {W : Type} (b : Provider W) (s : OSSStorage)
  (dir : string) (N : Z) (st : State W) :
  exists evs,
    trace (List b s dir N st).2 = trace st ++ evs /\
    forallb (is_listing_of (bucket s) (addPrefix s dir)) evs = true /\
    sum_Z (requested evs) <= Z.max 0 N /\
    Z.of_nat (length evs) <= (Z.max 0 N + 999) / 1000.
Proof.
  unfold List.
  destruct (List_loop_footprint b s (addPrefix s dir) (mkLoop N "" []) st)
    as (evs & Htr & Hshape & _ & Hsum & Hlen).
  exists evs. repeat split; assumption.
Qed.

(** X3: when the provider never puts more keys in a page than it was asked
    for, a list that [List] returns has at most as many items as the
    count. *)
Theorem List_at_most_count {W : Type} (b : Provider W) (s : OSSStorage)
  (dir : string) (N : Z) (st : State W) (its : list string)
  (Hmax : honours_max b)
  (Hres : (List b s dir N st).1 = Done (Val its)) :
  Z.of_nat (length its) <= Z.max 0 N.
Proof.
  unfold List in *.
  destruct (List_loop_footprint b s (addPrefix s dir) (mkLoop N "" []) st)
    as (evs & Htr & Hshape & Hans & Hsum & _).
  destruct (List_loop_trace b s (addPrefix s dir) (mkLoop N "" []) st)
    as (evs' & Htr' & _ & Hits).
  rewrite Htr in Htr'. apply app_inv_head in Htr'. subst evs'.
  rewrite (Hits its Hres). simpl. rewrite length_fmap.
  pose proof (listed_keys_within b s _ evs Hmax Hans Hshape). simpl in Hsum.
  lia.
Qed.

Lemma paged_honours_max (ks : list string) : honours_max (paged ks).
Proof.
  intros bkt pfx delim mark max w Hpos. simpl.
  rewrite length_fmap, length_take. lia.
Qed.

Lemma List_at_most_count_witness :
  (List (paged db_keys) (mkOSSStorage "bkt" "r" "backups") "db/" 2 start).1
  = Done (Val ["db/a"; "db/b"]) /\
  Z.of_nat (length ["db/a"; "db/b"]) <= Z.max 0 2.
Proof.
  split; [reflexivity|].
  exact (List_at_most_count (paged db_keys)
           (mkOSSStorage "bkt" "r" "backups") "db/" 2 start ["db/a"; "db/b"]
           (paged_honours_max db_keys) eq_refl).
Defined.

Lemma append_keys_short (s : OSSStorage) (keys : list oss_Key)
  (acc : list string) :
  existsb (short_key s) keys = true ->
  append_keys s keys acc = Panicked SliceBoundsOutOfRange.
Proof.
  revert acc. induction keys as [|key keys IH]; intros acc; [discriminate|].
  simpl. unfold removePrefix, slice_from, short_key.
  destruct (Nat.leb_spec (String.length (prefix s) + 1)
              (String.length (Key key))) as [Hle|Hlt].
  - destruct (Nat.ltb_spec (String.length (Key key))
                (String.length (prefix s) + 1)); [lia|].
    simpl. apply IH.
  - reflexivity.
Qed.

(** X4: when the first page holds a key with fewer than [len(prefix)+1]
    characters, the slice in [removePrefix] is out of range and [List]
    panics; it returns neither a list nor an error. *)
Theorem List_panics_on_short_key {W : Type} (b : Provider W) (s : OSSStorage)
  (dir : string) (N : Z) (st : State W) (page : ListResp) (w : W)
  (HN : 0 < N)
  (Hpage : oss_List b (bucket s) (addPrefix s dir) "" "" (Z.min N 1000)
             (world st) = (inl page, w))
  (Hshort : existsb (short_key s) (Contents page) = true) :
  List b s dir N st
  = (Panicked SliceBoundsOutOfRange,
     emit w (EvList (bucket s) (addPrefix s dir) "" "" (Z.min N 1000)
               (inl page)) st).
Proof.
  unfold List. rewrite List_loop_step. simpl.
  destruct (Z_lt_dec 0 N) as [_|Hn]; [|contradiction].
  rewrite List_body_eq. cbv zeta. simpl.
  rewrite maxReqSize_of_min, Hpage.
  now rewrite (append_keys_short s _ _ Hshort).
Qed.

Lemma List_panics_on_short_key_witness :
  let page := mkListResp [mkKey "backups/db/a"; mkKey "tmp"] false in
  let sc := mkScript (inl page) None (None, None) None None in
  List (scripted sc) (mkOSSStorage "bkt" "r" "backups") "db/" 10 start
  = (Panicked SliceBoundsOutOfRange,
     mkState tt [EvList "bkt" "backups/db/" "" "" 10 (inl page)]).
Proof.
  intros page sc.
  apply (List_panics_on_short_key (scripted sc)
           (mkOSSStorage "bkt" "r" "backups") "db/" 10 start page tt);
    [lia | reflexivity | reflexivity].
Defined.

Lemma prefix_app (p r : string) : String.prefix p (p +:+ r) = true.
Proof.
  induction p as [|c p IH]; [destruct r; reflexivity|].
  rewrite str_app_cons. simpl.
  destruct (ascii_dec c c) as [_|Hne]; [exact IH | contradiction].
Qed.

Lemma under_prefix_strip (s : OSSStorage) (dir k : string) :
  String.prefix (addPrefix s dir) k = true ->
  String.prefix dir (strip s k) = true.
Proof.
  intros H.
  assert (exists rest, k = addPrefix s dir +:+ rest) as [rest ->]
    by (eexists; now apply prefix_split).
  replace (addPrefix s dir +:+ rest) with (addPrefix s (dir +:+ rest))
    by (unfold addPrefix; now rewrite !str_app_assoc).
  rewrite strip_addPrefix. apply prefix_app.
Qed.

(** X5: when every key the provider listed is under the prefixed prefix,
    the items that [List] returns are logical paths: putting the prefix back
    on them gives the provider's keys, in order, and each of them still
    begins with the prefix that was asked for. *)
Theorem List_returns_logical_paths {W : Type} (b : Provider W)
  (s : OSSStorage) (dir : string) (N : Z) (st : State W)
  (its : list string) (evs : list Event)
  (Hres : (List b s dir N st).1 = Done (Val its))
  (Htr : trace (List b s dir N st).2 = trace st ++ evs)
  (Hunder : all_under (addPrefix s dir) (listed_keys evs) = true) :
  addPrefix s <$> its = listed_keys evs /\
  forallb (String.prefix dir) its = true.
Proof.
  unfold List in *.
  destruct (List_loop_trace b s (addPrefix s dir) (mkLoop N "" []) st)
    as (evs' & Htr' & _ & Hits).
  rewrite Htr in Htr'. apply app_inv_head in Htr'. subst evs'.
  rewrite (Hits its Hres). simpl. clear Hits Hres Htr.
  unfold all_under in Hunder.
  induction (listed_keys evs) as [|k ks IH]; [split; reflexivity|].
  simpl in Hunder. apply andb_true_iff in Hunder as [Hk Hks].
  destruct (IH Hks) as [IH1 IH2]. split.
  - rewrite !fmap_cons, IH1. f_equal.
    now apply (under_prefix_key s dir k).
  - rewrite fmap_cons. simpl. rewrite IH2, andb_true_r.
    now apply under_prefix_strip.
Qed.

Lemma List_returns_logical_paths_witness :
  let s := mkOSSStorage "bkt" "r" "backups" in
  let b := paged (db_keys ++ ["backups/x"]) in
  addPrefix s <$> ["db/a"; "db/b"; "db/c"] = db_keys /\
  forallb (String.prefix "db/") ["db/a"; "db/b"; "db/c"] = true.
Proof.
  intros s b.
  exact (List_returns_logical_paths b s "db/" 5 start
           ["db/a"; "db/b"; "db/c"]
           [EvList "bkt" "backups/db/" "" "" 5
              (inl (mkListResp (mkKey <$> db_keys) false))]
           eq_refl eq_refl eq_refl).
Defined.

(** ** More on PathCodec *)

(** X6: [removePrefix] panics exactly on a key with fewer than
    [len(prefix)+1] characters; on any other key it returns the key less
    that many characters, without looking at them, so that putting the
    prefix back gives the key again exactly when the key begins with the
    prefix and a slash. *)
Theorem removePrefix_unchecked (s : OSSStorage) (key : string) :
  removePrefix s key
  = (if (String.length key <? String.length (prefix s) + 1)%nat
     then Panicked SliceBoundsOutOfRange
     else Done (strip s key)) /\
  String.length (strip s key)
  = (String.length key - (String.length (prefix s) + 1))%nat /\
  (addPrefix s (strip s key) = key <->
   String.prefix (prefix s +:+ "/") key = true).
Proof.
  split; [|split].
  - unfold removePrefix, slice_from, strip.
    destruct (Nat.leb_spec (String.length (prefix s) + 1) (String.length key));
      destruct (Nat.ltb_spec (String.length key)
                  (String.length (prefix s) + 1)); try lia; reflexivity.
  - unfold strip. generalize (String.length (prefix s) + 1)%nat as n.
    intros n. revert key. induction n as [|n IH]; intros key; simpl.
    + lia.
    + destruct key as [|c t]; simpl; [reflexivity | apply IH].
  - split.
    + intros <-. unfold addPrefix. rewrite <- str_app_assoc.
      apply prefix_app.
    + intros H. apply prefix_split in H.
      rewrite str_length_app in H. simpl in H.
      unfold strip, addPrefix. rewrite <- str_app_assoc. now symmetry.
Qed.

Example removePrefix_foreign_key :
  removePrefix (mkOSSStorage "bkt" "r" "backups") "archive/db/a"
  = Done "db/a".
Proof. reflexivity. Qed.

(** X7: two logical paths that [addPrefix] sends to the same provider key
    are the same path. *)
Theorem addPrefix_injective (s : OSSStorage) (K1 K2 : string)
  (Hsame : addPrefix s K1 = addPrefix s K2) : K1 = K2.
Proof.
  pose proof (strip_addPrefix s K1) as H1.
  rewrite Hsame, strip_addPrefix in H1. now symmetry.
Qed.

Lemma addPrefix_injective_witness : "db/a" = "db/a".
Proof.
  exact (addPrefix_injective (mkOSSStorage "bkt" "r" "backups")
           "db/a" "db/a" eq_refl).
Defined.

(** ** More on reads *)

(** X8: when the read call returns neither a response nor an error, [Get]
    calls [Error()] on the nil error and panics, after its one request. *)
Theorem Get_panics_on_nil_nil {W : Type} (b : Provider W) (s : OSSStorage)
  (path : string) (st : State W) (w : W)
  (Hread : oss_GetResponse b (bucket s) (addPrefix s path) (world st)
           = ((None, None), w)) :
  Get b s path st
  = (Panicked NilDereference,
     emit w (EvGetResponse (bucket s) (addPrefix s path) (None, None)) st).
Proof.
  unfold Get, mbind, call_GetResponse, mpanic. now rewrite Hread.
Qed.

Lemma Get_panics_on_nil_nil_witness :
  Get (scripted all_fine) (mkOSSStorage "bkt" "r" "backups") "db/a" start
  = (Panicked NilDereference,
     mkState tt [EvGetResponse "bkt" "backups/db/a" (None, None)]).
Proof.
  exact (Get_panics_on_nil_nil (scripted all_fine)
           (mkOSSStorage "bkt" "r" "backups") "db/a" start tt eq_refl).
Defined.

Lemma TrimPrefix_quote (x : string) :
  strings_TrimPrefix (quote +:+ x) quote = x.
Proof.
  unfold strings_TrimPrefix, quote. rewrite str_app_cons. simpl.
  destruct (ascii_dec "034" "034") as [_|Hne]; [|contradiction].
  destruct x; reflexivity.
Qed.

Lemma TrimPrefix_hex (h x : string) :
  all_hex h = true -> h <> "" ->
  strings_TrimPrefix (h +:+ x) quote = h +:+ x.
Proof.
  destruct h as [|c t]; [contradiction|]. intros Hhex _.
  simpl in Hhex. apply andb_true_iff in Hhex as [Hc _].
  unfold strings_TrimPrefix, quote. rewrite str_app_cons.
  change (String.prefix (String "034" "") (String c (t +:+ x)))
    with (if ascii_dec "034" c then String.prefix "" (t +:+ x) else false).
  destruct (ascii_dec "034" c) as [<-|_]; [discriminate Hc | reflexivity].
Qed.

Lemma HasSuffix_hex (h : string) :
  all_hex h = true -> strings_HasSuffix h quote = false.
Proof.
  unfold strings_HasSuffix.
  induction h as [|c t IH]; [reflexivity|].
  intros Hhex. simpl in Hhex. apply andb_true_iff in Hhex as [Hc Ht].
  specialize (IH Ht).
  change (String.length (String c t)) with (S (String.length t)).
  change (String.length quote) with 1%nat in *.
  replace (S (String.length t) - 1)%nat with (String.length t) by lia.
  destruct t as [|d t'].
  - simpl. destruct (Ascii.eqb_spec c "034") as [->|_];
      [discriminate Hc | reflexivity].
  - change (String.length (String d t')) with (S (String.length t')) in *.
    change (str_drop (S (String.length t')) (String c (String d t')))
      with (str_drop (String.length t') (String d t')).
    replace (S (String.length t') - 1)%nat with (String.length t') in IH
      by lia.
    simpl in IH. simpl. exact IH.
Qed.

Lemma TrimSuffix_hex (h : string) :
  all_hex h = true -> strings_TrimSuffix h quote = h.
Proof.
  intros Hhex. unfold strings_TrimSuffix. now rewrite HasSuffix_hex.
Qed.

(** The four ways a digest can be written in the header. *)
Lemma unquote_any (h v : string) :
  all_hex h = true ->
  v ∈ [h; quote +:+ h; h +:+ quote; quote +:+ h +:+ quote] ->
  strings_TrimSuffix (strings_TrimPrefix v quote) quote = h.
Proof.
  intros Hhex Hv.
  repeat (apply elem_of_cons in Hv as [->|Hv]).
  - destruct h as [|c t]; [reflexivity|].
    replace (String c t) with (String c t +:+ "") at 1
      by (clear; induction (String c t) as [|x y IH];
          [reflexivity | rewrite str_app_cons; now rewrite IH]).
    rewrite TrimPrefix_hex by (assumption || discriminate).
    replace (String c t +:+ "") with (String c t)
      by (clear; induction (String c t) as [|x y IH];
          [reflexivity | rewrite str_app_cons; now rewrite <- IH]).
    now apply TrimSuffix_hex.
  - rewrite TrimPrefix_quote. now apply TrimSuffix_hex.
  - destruct h as [|c t]; [reflexivity|].
    rewrite TrimPrefix_hex by (assumption || discriminate).
    apply TrimSuffix_app.
  - apply unquote_quoted.
  - apply elem_of_nil in Hv. contradiction.
Qed.

(** X9: a digest that is valid hexadecimal is accepted with or without a
    quote at either end of the header value, and gives the same checksum in
    all four cases. *)
Theorem Get_quotes_optional {W : Type} (b : Provider W) (s : OSSStorage)
  (path : string) (st : State W) (resp : Response) (w : W)
  (h v : string) (rest : list string)
  (Hread : oss_GetResponse b (bucket s) (addPrefix s path) (world st)
           = ((Some resp, None), w))
  (Hhdr : Header resp !! "Etag" = Some (v :: rest))
  (Hhex : valid_hex h = true)
  (Hv : v ∈ [h; quote +:+ h; h +:+ quote; quote +:+ h +:+ quote]) :
  exists cs,
    hex_DecodeString h = Val cs /\
    (Get b s path st).1 = Done (Val (NewChecksummingReader (Body resp) cs)).
Proof.
  unfold Get, mbind, call_GetResponse, mret. rewrite Hread. simpl.
  unfold Get_checksum. rewrite Hhdr.
  assert (all_hex h = true) as Hall
    by (unfold valid_hex in Hhex; now apply andb_true_iff in Hhex as [_ ?]).
  rewrite (unquote_any h v Hall Hv).
  pose proof (hex_DecodeString_valid h) as Hdec.
  destruct (hex_DecodeString h) as [cs|e]; [|congruence].
  now exists cs.
Qed.

Lemma Get_quotes_optional_witness :
  let resp := etag_response [md5_of_nothing] in
  let sc := mkScript (inr boom) None (Some resp, None) None None in
  exists cs,
    hex_DecodeString md5_of_nothing = Val cs /\
    (Get (scripted sc) (mkOSSStorage "bkt" "r" "backups") "db/a" start).1
    = Done (Val (NewChecksummingReader EOF cs)).
Proof.
  intros resp sc.
  apply (Get_quotes_optional (scripted sc)
           (mkOSSStorage "bkt" "r" "backups") "db/a" start resp tt
           md5_of_nothing md5_of_nothing []).
  - reflexivity.
  - vm_compute. reflexivity.
  - vm_compute. reflexivity.
  - apply elem_of_cons. now left.
Defined.

(** ** The two copies of the package *)

Section Copies.
Context {W : Type} (b : Provider W).

Lemma OtherSDK_append_keys s keys acc :
  OtherSDK.append_keys s keys acc = append_keys (forget s) keys acc.
Proof.
  revert acc. induction keys as [|key keys IH]; intros acc; [reflexivity|].
  simpl. unfold OtherSDK.removePrefix, removePrefix. simpl.
  destruct (slice_from _ _); [apply IH | reflexivity].
Qed.

Lemma OtherSDK_List_body s pfx ls (st : State W) :
  OtherSDK.List_body b s pfx ls st = List_body b (forget s) pfx ls st.
Proof.
  unfold OtherSDK.List_body, List_body, mbind, lift. simpl.
  destruct (call_List b _ _ _ _ _ st) as [[[page|err]|p] st']; try reflexivity.
  now rewrite OtherSDK_append_keys.
Qed.

Lemma OtherSDK_List_loop_step s pfx ls (st : State W) :
  OtherSDK.List_loop b s pfx ls st =
  if Z_lt_dec 0 (maxSize ls) then
    match OtherSDK.List_body b s pfx ls st with
    | (Done (Next ls'), st') => OtherSDK.List_loop b s pfx ls' st'
    | (Done (Stop r), st') => (Done r, st')
    | (Panicked p, st') => (Panicked p, st')
    end
  else (Done (Val (items ls)), st).
Proof.
  simp List_loop.
  destruct (Z_lt_dec 0 (maxSize ls)) as [Hpos|Hn]; simpl; [|reflexivity].
  unfold inspect.
  destruct (OtherSDK.List_body b s pfx ls st) as [[[ls'|r]|p] st'] eqn:E;
    reflexivity.
Qed.

Lemma OtherSDK_List_loop s pfx ls (st : State W) :
  OtherSDK.List_loop b s pfx ls st = List_loop b (forget s) pfx ls st.
Proof.
  revert ls st.
  apply (List_loop_rounds b (forget s) pfx (fun ls st out =>
    OtherSDK.List_loop b s pfx ls st = out)).
  - intros ls st Hneg. rewrite OtherSDK_List_loop_step.
    destruct (Z_lt_dec 0 (maxSize ls)); [contradiction | reflexivity].
  - intros ls st ls' st' Hpos E IH. rewrite OtherSDK_List_loop_step.
    destruct (Z_lt_dec 0 (maxSize ls)); [|contradiction].
    now rewrite OtherSDK_List_body, E.
  - intros ls st r st' Hpos E. rewrite OtherSDK_List_loop_step.
    destruct (Z_lt_dec 0 (maxSize ls)); [|contradiction].
    now rewrite OtherSDK_List_body, E.
  - intros ls st p st' Hpos E. rewrite OtherSDK_List_loop_step.
    destruct (Z_lt_dec 0 (maxSize ls)); [|contradiction].
    now rewrite OtherSDK_List_body, E.
Qed.

End Copies.

(** X10: on the same provider the two copies of the package behave alike:
    their constructors send the same requests and succeed or fail together,
    with adapters for the same bucket, region and prefix, and [Put],
    [PutReader], [Delete] and [List] of the second copy do what those of the
    first do. *)
Theorem copies_agree {W : Type} (b : Provider W) (s : OtherSDK.OSSStorage)
  (st : State W) :
  (forall region auth bucketName pfx internal secure bucketACL,
      NewOSSStorage b bucketName pfx region internal
        (AccessKey auth) (SecretKey auth) secure bucketACL st
      = (match (OtherSDK.NewOSSStorage b region auth bucketName pfx
                  bucketACL st).1 with
         | Done r => Done (forget_ret r)
         | Panicked p => Panicked p
         end,
         (OtherSDK.NewOSSStorage b region auth bucketName pfx
            bucketACL st).2)) /\
  (forall path data,
      OtherSDK.Put b s path data st = Put b (forget s) path data st) /\
  (forall path reader,
      OtherSDK.PutReader b s path reader st
      = PutReader b (forget s) path reader st) /\
  (forall path, OtherSDK.Delete b s path st = Delete b (forget s) path st) /\
  (forall dir N, OtherSDK.List b s dir N st = List b (forget s) dir N st).
Proof.
  split; [|split; [|split; [|split]]].
  - intros region auth bucketName pfx internal secure bucketACL.
    unfold NewOSSStorage, OtherSDK.NewOSSStorage, mbind, mret.
    destruct (call_List b _ _ _ _ _ st) as [[[page|err]|p] st1];
      try reflexivity.
    destruct (call_PutBucket b _ _ st1) as [[[e|]|p] st2]; reflexivity.
  - reflexivity.
  - intros path reader. unfold OtherSDK.PutReader, PutReader.
    destruct (ioutil_ReadAll reader) as [data [e|]]; reflexivity.
  - reflexivity.
  - intros dir N. unfold OtherSDK.List, List. apply OtherSDK_List_loop.
Qed.

(** ** The driver factory *)

Section DriverFacts.
Context {W : Type} (b : Provider W).
Context {LocalReplica SnapshotManager : Type}.
Context (NewLocalReplica :
           Z -> string -> string -> string -> M W (ret LocalReplica)).
Context (NewSnapshotManager :
           LocalReplica -> OtherSDK.OSSStorage -> M W (ret SnapshotManager)).
Context (env : gmap string string).

Lemma credentials_present :
  os_Getenv env "OSS_ACCESS_KEY_ID" <> "" ->
  os_Getenv env "OSS_SECRET_ACCESS_KEY" <> "" ->
  String.eqb (os_Getenv env "OSS_ACCESS_KEY_ID") ""
  || String.eqb (os_Getenv env "OSS_SECRET_ACCESS_KEY") "" = false.
Proof.
  intros Ha Hs.
  destruct (String.eqb_spec (os_Getenv env "OSS_ACCESS_KEY_ID") "");
    [contradiction|].
  destruct (String.eqb_spec (os_Getenv env "OSS_SECRET_ACCESS_KEY") "");
    [contradiction | reflexivity].
Qed.

Lemma credentials_absent :
  String.eqb (os_Getenv env "OSS_ACCESS_KEY_ID") ""
  || String.eqb (os_Getenv env "OSS_SECRET_ACCESS_KEY") "" = false ->
  os_Getenv env "OSS_ACCESS_KEY_ID" <> "" /\
  os_Getenv env "OSS_SECRET_ACCESS_KEY" <> "".
Proof.
  intros H. apply orb_false_iff in H as [Ha Hs].
  split; now apply String.eqb_neq.
Qed.

End DriverFacts.

(** X11: when either of the two credential variables is unset or empty,
    [Driver] returns its fixed error; it sends nothing to the provider and
    constructs neither the replica nor the manager, whatever the options
    are, a nil pointer included. *)
Theorem Driver_requires_credentials {W : Type} (b : Provider W)
  {LocalReplica SnapshotManager : Type}
  (NewLocalReplica : Z -> string -> string -> string -> M W (ret LocalReplica))
  (NewSnapshotManager :
     LocalReplica -> OtherSDK.OSSStorage -> M W (ret SnapshotManager))
  (env : gmap string string) (factory : DriverFactory) (st : State W)
  (Hmissing : os_Getenv env "OSS_ACCESS_KEY_ID" = "" \/
              os_Getenv env "OSS_SECRET_ACCESS_KEY" = "") :
  Driver b NewLocalReplica NewSnapshotManager env factory st
  = (Done (Error (errors_New credentials_text)), st).
Proof.
  unfold Driver.
  destruct Hmissing as [-> | ->]; [reflexivity|].
  now rewrite orb_true_r.
Qed.

(** X12: with both credentials set and a nil options pointer, [Driver]
    panics on the first field it reads, before any request. *)
Theorem Driver_panics_on_nil_options {W : Type} (b : Provider W)
  {LocalReplica SnapshotManager : Type}
  (NewLocalReplica : Z -> string -> string -> string -> M W (ret LocalReplica))
  (NewSnapshotManager :
     LocalReplica -> OtherSDK.OSSStorage -> M W (ret SnapshotManager))
  (env : gmap string string) (st : State W)
  (Hid : os_Getenv env "OSS_ACCESS_KEY_ID" <> "")
  (Hkey : os_Getenv env "OSS_SECRET_ACCESS_KEY" <> "") :
  Driver b NewLocalReplica NewSnapshotManager env (mkDriverFactory None) st
  = (Panicked NilDereference, st).
Proof.
  unfold Driver. now rewrite (credentials_present env Hid Hkey).
Qed.

(** X13: with the credentials set, when the probe fails [Driver] asks for
    the bucket to be created with the access setting exactly as the option
    gives it, whether or not it is one of the enumerated settings; when that
    fails too, [Driver] returns the creation error after these two requests,
    and constructs neither the replica nor the manager. *)
Theorem Driver_stops_at_storage_failure {W : Type} (b : Provider W)
  {LocalReplica SnapshotManager : Type}
  (NewLocalReplica : Z -> string -> string -> string -> M W (ret LocalReplica))
  (NewSnapshotManager :
     LocalReplica -> OtherSDK.OSSStorage -> M W (ret SnapshotManager))
  (env : gmap string string) (options : Options) (st : State W)
  (e1 e2 : GoError) (w1 w2 : W)
  (Hid : os_Getenv env "OSS_ACCESS_KEY_ID" <> "")
  (Hkey : os_Getenv env "OSS_SECRET_ACCESS_KEY" <> "")
  (Hprobe : oss_List b (BucketName (OSS options)) "" "/" "" 1 (world st)
            = (inr e1, w1))
  (Hcreate : oss_PutBucket b (BucketName (OSS options))
               (BucketACL (OSS options)) w1 = (Some e2, w2)) :
  Driver b NewLocalReplica NewSnapshotManager env
    (mkDriverFactory (Some options)) st
  = (Done (Error (Foreign e2)),
     mkState w2
       (trace st
          ++ [EvList (BucketName (OSS options)) "" "/" "" 1 (inr e1);
              EvPutBucket (BucketName (OSS options))
                (BucketACL (OSS options)) (Some e2)])).
Proof.
  unfold Driver. rewrite (credentials_present env Hid Hkey). simpl.
  unfold OtherSDK.NewOSSStorage, mbind, call_List, call_PutBucket, mret, emit.
  rewrite Hprobe. simpl. rewrite Hcreate. simpl.
  now rewrite <- app_assoc.
Qed.

(** X14: [Driver] returns a driver only when both credentials are set, the
    options are there, and the three constructors succeeded one after the
    other; the adapter is the one for the bucket, region and prefix of the
    options with the credentials of the environment, the replica was asked
    for with the port as decimal text, and the driver's manager is the one
    the last constructor returned. *)
Theorem Driver_success {W : Type} (b : Provider W)
  {LocalReplica SnapshotManager : Type}
  (NewLocalReplica : Z -> string -> string -> string -> M W (ret LocalReplica))
  (NewSnapshotManager :
     LocalReplica -> OtherSDK.OSSStorage -> M W (ret SnapshotManager))
  (env : gmap string string) (factory : DriverFactory) (st : State W)
  (d : strata_Driver SnapshotManager)
  (Hres : (Driver b NewLocalReplica NewSnapshotManager env factory st).1
          = Done (Val d)) :
  exists options replica st1 st2,
    let storage :=
      OtherSDK.mk (BucketName (OSS options)) (Region (OSS options))
        (mkAuth (os_Getenv env "OSS_ACCESS_KEY_ID")
           (os_Getenv env "OSS_SECRET_ACCESS_KEY"))
        (BucketPrefix (OSS options)) in
    os_Getenv env "OSS_ACCESS_KEY_ID" <> "" /\
    os_Getenv env "OSS_SECRET_ACCESS_KEY" <> "" /\
    Ops factory = Some options /\
    OtherSDK.NewOSSStorage b (Region (OSS options))
      (mkAuth (os_Getenv env "OSS_ACCESS_KEY_ID")
         (os_Getenv env "OSS_SECRET_ACCESS_KEY"))
      (BucketName (OSS options)) (BucketPrefix (OSS options))
      (BucketACL (OSS options)) st
    = (Done (Val storage), st1) /\
    NewLocalReplica (MaxBackgroundCopies (Replica options))
      (pretty (Port (Replica options)))
      (Username (Replica options)) (Password (Replica options)) st1
    = (Done (Val replica), st2) /\
    NewSnapshotManager replica storage st2
    = (Done (Val (Manager d)),
       (Driver b NewLocalReplica NewSnapshotManager env factory st).2).
Proof.
  unfold Driver in *. unfold GetOptions in *.
  destruct (String.eqb _ _ || String.eqb _ _) eqn:Hcred; [discriminate|].
  apply credentials_absent in Hcred as [Hid Hkey].
  destruct (Ops factory) as [options|]; [|discriminate].
  unfold mbind in *.
  destruct (OtherSDK.NewOSSStorage b _ _ _ _ _ st)
    as [[[storage|e]|p] st1] eqn:Hs; try discriminate.
  destruct (NewLocalReplica _ _ _ _ st1)
    as [[[replica|e]|p] st2] eqn:Hr; try discriminate.
  destruct (NewSnapshotManager replica storage st2)
    as [[[manager|e]|p] st3] eqn:Hm; try discriminate.
  simpl in Hres. injection Hres as <-.
  exists options, replica, st1, st2. cbv zeta.
  assert (storage
          = OtherSDK.mk (BucketName (OSS options)) (Region (OSS options))
              (mkAuth (os_Getenv env "OSS_ACCESS_KEY_ID")
                 (os_Getenv env "OSS_SECRET_ACCESS_KEY"))
              (BucketPrefix (OSS options))) as ->.
  { revert Hs.
    unfold OtherSDK.NewOSSStorage, mbind, call_List, call_PutBucket, mret.
    destruct (oss_List b _ _ _ _ _ _) as [[page|err] w1]; simpl.
    - now intros [= <- _].
    - destruct (oss_PutBucket b _ _ _) as [[e|] w2]; simpl;
        [discriminate | now intros [= <- _]]. }
  repeat split; assumption.
Qed.

Lemma Driver_requires_credentials_witness :
  Driver (scripted all_fine) port_replica pair_manager
    {["OSS_ACCESS_KEY_ID" := "id"]} (mkDriverFactory None) start
  = (Done (Error (errors_New credentials_text)), start).
Proof.
  apply (Driver_requires_credentials (scripted all_fine) port_replica
           pair_manager {["OSS_ACCESS_KEY_ID" := "id"]}
           (mkDriverFactory None) start).
  right. vm_compute. reflexivity.
Defined.

Lemma Driver_panics_on_nil_options_witness :
  Driver (scripted all_fine) port_replica pair_manager with_credentials
    (mkDriverFactory None) start
  = (Panicked NilDereference, start).
Proof.
  apply (Driver_panics_on_nil_options (scripted all_fine) port_replica
           pair_manager with_credentials start);
    vm_compute; discriminate.
Defined.

Lemma Driver_stops_at_storage_failure_witness :
  Driver (scripted (mkScript (inr boom) (Some denied) (None, None) None None))
    port_replica pair_manager with_credentials
    (mkDriverFactory (Some sample_options)) start
  = (Done (Error (Foreign denied)),
     mkState tt [EvList "bkt" "" "/" "" 1 (inr boom);
                 EvPutBucket "bkt" "no-such-acl" (Some denied)]).
Proof.
  apply (Driver_stops_at_storage_failure
           (scripted (mkScript (inr boom) (Some denied) (None, None)
                        None None))
           port_replica pair_manager with_credentials sample_options start
           boom denied tt tt);
    try reflexivity; vm_compute; discriminate.
Defined.

Lemma Driver_success_witness :
  let storage := OtherSDK.mk "bkt" "oss-cn-hangzhou" (mkAuth "id" "key")
                   "backups" in
  exists options,
    Ops (mkDriverFactory (Some sample_options)) = Some options /\
    (Driver (scripted all_fine) port_replica pair_manager with_credentials
       (mkDriverFactory (Some sample_options)) start).1
    = Done (Val (mkDriver ("27017", storage))).
Proof.
  intros storage.
  destruct (Driver_success (scripted all_fine) port_replica pair_manager
              with_credentials (mkDriverFactory (Some sample_options)) start
              (mkDriver ("27017", storage)) ltac:(vm_compute; reflexivity))
    as (options & _ & _ & _ & _ & _ & Hops & _).
  exists options. split; [exact Hops|]. vm_compute. reflexivity.
Defined.

(** ** The command's entry point *)

Lemma lower_byte_o (c : ascii) :
  Ascii.eqb (lower_byte c) "o" = Ascii.eqb c "o" || Ascii.eqb c "O".
Proof. destruct c as [[] [] [] [] [] [] [] []]; reflexivity. Qed.

Lemma lower_byte_s (c : ascii) :
  Ascii.eqb (lower_byte c) "s" = Ascii.eqb c "s" || Ascii.eqb c "S".
Proof. destruct c as [[] [] [] [] [] [] [] []]; reflexivity. Qed.

Lemma lower_bytes_oss (v : string) :
  String.eqb (lower_bytes v) "oss" = bool_decide (v ∈ oss_spellings).
Proof.
  case_bool_decide as Hin.
  - unfold oss_spellings in Hin.
    repeat (apply elem_of_cons in Hin as [->|Hin]); try reflexivity.
    apply elem_of_nil in Hin. contradiction.
  - apply not_true_is_false. intros Heq. apply Hin. clear Hin.
    destruct v as [|c1 [|c2 [|c3 [|c4 t]]]]; try discriminate Heq.
    + simpl in Heq. destruct (Ascii.eqb (lower_byte c1) "o");
        discriminate Heq.
    + simpl in Heq.
      destruct (Ascii.eqb (lower_byte c1) "o"); [|discriminate Heq].
      destruct (Ascii.eqb (lower_byte c2) "s"); discriminate Heq.
    + change (String.eqb (lower_bytes (String c1 (String c2 (String c3 ""))))
                "oss")
        with (Ascii.eqb (lower_byte c1) "o"
              && (Ascii.eqb (lower_byte c2) "s"
                  && (Ascii.eqb (lower_byte c3) "s" && true))) in Heq.
      rewrite lower_byte_o, !lower_byte_s in Heq.
      rewrite !andb_true_iff, !orb_true_iff in Heq.
      destruct Heq as ([H1|H1] & [H2|H2] & [H3|H3] & _);
        apply Ascii.eqb_eq in H1, H2, H3; subst;
        unfold oss_spellings; set_solver.
    + change (String.eqb
                (lower_bytes (String c1 (String c2 (String c3 (String c4 t)))))
                "oss")
        with (Ascii.eqb (lower_byte c1) "o"
              && (Ascii.eqb (lower_byte c2) "s"
                  && (Ascii.eqb (lower_byte c3) "s" && false))) in Heq.
      rewrite !andb_false_r in Heq. discriminate Heq.
Qed.

(** X15: for a value of [REMOTE_STORAGE] that is all ASCII, [main] runs the
    command with the OSS driver factory, over zero-valued options, exactly
    when the value spells ["oss"] in upper or lower case, and with the S3
    driver factory otherwise; an unset variable gives the S3 factory. *)
Theorem main_selects_backend (lower_runes : string -> string)
  (env : gmap string string)
  (Hascii : is_ascii (os_Getenv env "REMOTE_STORAGE") = true) :
  main lower_runes env
  = (if bool_decide (os_Getenv env "REMOTE_STORAGE" ∈ oss_spellings)
     then OSSBackend (mkDriverFactory (Some zero_Options))
     else S3Backend) /\
  (env !! "REMOTE_STORAGE" = None -> main lower_runes env = S3Backend).
Proof.
  assert (main lower_runes env
          = (if bool_decide (os_Getenv env "REMOTE_STORAGE" ∈ oss_spellings)
             then OSSBackend (mkDriverFactory (Some zero_Options))
             else S3Backend)) as Hmain.
  { unfold main, strings_ToLower. rewrite Hascii.
    now rewrite lower_bytes_oss. }
  split; [exact Hmain|].
  intros Hunset. rewrite Hmain. unfold os_Getenv. rewrite Hunset.
  reflexivity.
Qed.

Lemma main_selects_backend_witness :
  main (fun s => s) {["REMOTE_STORAGE" := "OSS"]}
  = OSSBackend (mkDriverFactory (Some zero_Options)).
Proof.
  exact (proj1 (main_selects_backend (fun s => s)
                  {["REMOTE_STORAGE" := "OSS"]} eq_refl)).
Defined.

Example main_defaults_to_S3 :
  main (fun s => s) {["REMOTE_STORAGE" := "s3"]} = S3Backend /\
  main (fun s => s) {["REMOTE_STORAGE" := "oss "]} = S3Backend /\
  main (fun s => s) ∅ = S3Backend.
Proof. repeat split; vm_compute; reflexivity. Qed.
